(** * The ModSecurity gate of traefik-modsecurity-plugin

    A shallow embedding of [modsecurity.go]: the plugin configuration, the
    constructor [New], and the per-request pipeline [ServeHTTP] with its
    helpers [isWebsocket], [forwardResponse] and [handleError].

    The Go code talks to four collaborators that live outside the
    repository: the inbound body stream, the [http.ResponseWriter], the
    shared [httpClient] and the upstream handler [next].  They are modelled
    as follows.
    - A body stream is the list of bytes it still delivers, followed by how
      it ends (end of file, or a read error with its message).
    - The response writer is a recorder obeying the [http.ResponseWriter]
      contract: a header map, the status code once written, the bytes
      written so far; [WriteHeader] panics, as the one of [net/http] does,
      on a code that has not three digits.
    - [httpClient.Do], the validation and the URL parsing of
      [http.NewRequest], the canonical form of a header key, the order in
      which [range] visits a map, and
      the header lines that [http.Error] and an exceeded
      [http.MaxBytesReader] leave on the writer are parameters of the
      development, gathered in the class [Environment].
    - The upstream handler is a function on the world, the response writer
      and the request; it may return or panic.
    Every call that leaves the gate (the decision service, the upstream
    handler) is recorded in a trace, so that "is never contacted" and "is
    invoked with" are statements about that trace.  Closing the verdict
    body and the handling of the connection have no part in it. *)

From Stdlib Require Import ZArith String List Lia.
From stdpp Require Import base option gmap strings list fin_maps pretty.

Local Open Scope string_scope.
Local Open Scope list_scope.
Local Open Scope Z_scope.

(** ** Data model *)

(** [http.Header]: map[string][]string. *)
Abbreviation Header := (gmap string (list string)).

(** How an [io.Reader] ends once its bytes are delivered. *)
Inductive StreamEnd : Type :=
| EOF
| ReadError (msg : string).

(** An [io.ReadCloser] in its current state: the bytes it has yet to
    deliver and the way it ends after them. *)
Record Stream : Type := mkStream {
  pending : list Byte.byte;
  ending : StreamEnd
}.

(** [ioutil.NopCloser(bytes.NewReader(b))]: a fresh reader over [b]. *)
Definition NopCloser_NewReader (b : list Byte.byte) : Stream :=
  {| pending := b; ending := EOF |}.

(** The parts of [*http.Request] the gate reads or writes. *)
Record Request : Type := mkRequest {
  Method : string;
  RequestURI : string;
  ReqHeader : Header;
  Body : Stream
}.

Definition setBody (r : Request) (b : Stream) : Request :=
  {| Method := Method r; RequestURI := RequestURI r;
     ReqHeader := ReqHeader r; Body := b |}.

(** The outbound request built by [http.NewRequest] and completed with the
    copied headers. *)
Record ProxyRequest : Type := mkProxyRequest {
  pMethod : string;
  pURL : string;
  pHeader : Header;
  pBody : list Byte.byte
}.

(** [*http.Response] as returned by [httpClient.Do]. *)
Record Response : Type := mkResponse {
  StatusCode : Z;
  RespHeader : Header;
  RespBody : Stream
}.

(** [http.ResponseWriter], as a recorder. *)
Record ResponseWriter : Type := mkResponseWriter {
  rwHeader : Header;
  rwStatus : option Z;
  rwBody : list Byte.byte
}.

(** [Config]: the plugin configuration. *)
Record Config : Type := mkConfig {
  ModSecurityUrl : string;
  MaxBodySize : Z;
  InterruptOnError : bool;
  Ignore500Error : bool
}.

(** [CreateConfig]: the default plugin configuration. *)
Definition CreateConfig : Config :=
  {| ModSecurityUrl := "";
     MaxBodySize := 10 * 1024 * 1024;
     InterruptOnError := true;
     Ignore500Error := false |}.

Definition StatusBadGateway : Z := 502.
Definition StatusRequestEntityTooLarge : Z := 413.
Definition StatusOK : Z := 200.

(** The message of [*http.MaxBytesError]. *)
Definition errBodyTooLarge : string := "http: request body too large".

(** How a call ends: it returns, or it panics with a value (rendered with
    the verb [%s]). *)
Inductive Completion (A : Type) : Type :=
| Ret (a : A)
| Panic (v : string).
Arguments Ret {A} a.
Arguments Panic {A} v.

(** ** The response writer *)

Module RW.

(** What a call of [rw.WriteHeader(code)] that returns leaves on the
    writer: the first status written stays.  (Informational codes, which
    the gate never writes, are not told apart from final ones.) *)
Definition setStatus (code : Z) (w : ResponseWriter) : ResponseWriter :=
  match rwStatus w with
  | Some _ => w
  | None => {| rwHeader := rwHeader w; rwStatus := Some code; rwBody := rwBody w |}
  end.

(** [checkWriteHeaderCode]: a status code has three digits. *)
Definition validCode (code : Z) : bool := (100 <=? code) && (code <=? 999).

(** [rw.WriteHeader(code)]: a call after the status was written is
    ignored; the call that writes the status panics on a code that has not
    three digits. *)
Definition WriteHeader (code : Z) (w : ResponseWriter) : Completion ResponseWriter :=
  match rwStatus w with
  | Some _ => Ret w
  | None =>
      if validCode code then Ret (setStatus code w)
      else Panic ("invalid WriteHeader code " +:+ pretty code)
  end.

(** [rw.Write(p)]: writes the status 200 first when none was written. *)
Definition Write (p : list Byte.byte) (w : ResponseWriter) : ResponseWriter :=
  let w' := setStatus StatusOK w in
  {| rwHeader := rwHeader w'; rwStatus := rwStatus w'; rwBody := rwBody w' ++ p |}.

Definition withHeader (h : Header) (w : ResponseWriter) : ResponseWriter :=
  {| rwHeader := h; rwStatus := rwStatus w; rwBody := rwBody w |}.

(** A writer on which nothing was sent yet. *)
Definition fresh (w : ResponseWriter) : Prop :=
  rwStatus w = None ∧ rwBody w = [].

End RW.

(** [io.Copy(rw, body)]: every byte the stream delivers is written; a
    stream that delivers nothing causes no write. *)
Definition io_Copy (src : Stream) (w : ResponseWriter) : ResponseWriter :=
  match pending src with
  | [] => w
  | p => RW.Write p w
  end.

(** The outcome of [httpClient.Do]: a response, a transport error (timeout,
    refused connection, failed lookup), or a panic. *)
Inductive DoResult : Type :=
| DoResponse (resp : Response)
| DoError (msg : string)
| DoPanic (v : string).

(** What the gate takes from outside the repository. *)
Class Environment : Type := {
  (** The state of everything outside the gate: the decision service, the
      network, the upstream service. *)
  World : Type;
  (** [textproto.CanonicalMIMEHeaderKey], applied by [Header.Set]. *)
  CanonicalMIMEHeaderKey : string → string;
  (** The order in which [for k, vv := range h] visits the entries of a
      header map: unspecified in Go, some enumeration of the map. *)
  range : Header → list (string * list string);
  range_perm : ∀ h : Header, range h ≡ₚ map_to_list h;
  (** The error of [http.NewRequest(method, url, body)], if any. *)
  NewRequest_error : string → string → option string;
  (** The URL of the request [http.NewRequest] returns: what parsing makes
      of the string it is given (escapes rewritten, the fragment gone). *)
  NewRequest_URL : string → string;
  (** [httpClient.Do(proxyReq)]. *)
  httpClient_Do : World → ProxyRequest → World * DoResult;
  (** What [http.Error] does to the header map before it writes the status
      (the plain-text content type and its companions). *)
  errorHeaders : Header → Header;
  (** What the response writer does to its header map when
      [http.MaxBytesReader] tells it that the limit was hit (the server's
      writer asks for the connection to be closed; a writer without the
      method does nothing). *)
  requestTooLarge : Header → Header
}.

Section Gate.

Context `{Environment}.

(** The response writer once told that the body limit was hit. *)
Definition limitHit (w : ResponseWriter) : ResponseWriter :=
  RW.withHeader (requestTooLarge (rwHeader w)) w.

(** [ioutil.ReadAll(http.MaxBytesReader(rw, body, n))].  A negative limit
    counts as 0.  The wrapped reader asks the stream for at most one byte
    beyond the limit: with more than [n] bytes pending it hands out [n] of
    them, tells the writer, fails with [errBodyTooLarge] and leaves the
    stream [n+1] bytes further; otherwise every byte is read and the
    stream's own ending decides.  Returns the bytes, the error, the
    stream and the writer afterwards. *)
Definition ReadAll_MaxBytesReader (w : ResponseWriter) (n : Z) (s : Stream)
  : list Byte.byte * option string * Stream * ResponseWriter :=
  let n := Z.max 0 n in
  if Z.of_nat (length (pending s)) <=? n then
    (pending s,
     match ending s with EOF => None | ReadError m => Some m end,
     {| pending := []; ending := ending s |},
     w)
  else
    (take (Z.to_nat n) (pending s),
     Some errBodyTooLarge,
     {| pending := drop (Z.to_nat n + 1) (pending s); ending := ending s |},
     limitHit w).

(** [http.Handler]: the handler works on the response writer and on the
    request it is given by reference, and returns or panics. *)
Definition Handler : Type :=
  World → ResponseWriter → Request →
  World * ResponseWriter * Request * Completion unit.

(** [Modsecurity]: a Modsecurity plugin.  The logger is the log of the
    state below. *)
Record Modsecurity : Type := mkModsecurity {
  next : Handler;
  modSecurityUrl : string;
  maxBodySize : Z;
  interruptOnError : bool;
  ignore500Error : bool;
  name : string
}.

(** [New]: the handler and the error, one of them nil. *)
Definition New (next : Handler) (config : Config) (name : string)
  : option Modsecurity * option string :=
  if (String.length (ModSecurityUrl config) =? 0)%nat then
    (None, Some "modSecurityUrl cannot be empty")
  else
    (Some {| modSecurityUrl := ModSecurityUrl config;
             maxBodySize := MaxBodySize config;
             interruptOnError := InterruptOnError config;
             ignore500Error := Ignore500Error config;
             next := next;
             name := name |},
     None).

(** *** Per-request state and its monad *)

(** A call that leaves the gate: the decision service with the outbound
    request, or the upstream handler with the response writer and the
    request as they are at that moment. *)
Inductive Call : Type :=
| CallDo (p : ProxyRequest)
| CallNext (w : ResponseWriter) (r : Request).

(** A line of the logger. *)
Inductive LogEntry : Type :=
| LogPrintf (format : string)
| LogPrint (s : string)
| LogRequest (s : string) (r : Request)
| LogResponse (s : string) (r : Response).

(** What one invocation of [ServeHTTP] can touch: the response writer,
    the request behind the pointer [req], the logger's output, the calls
    made so far, and the world. *)
Record State : Type := mkState {
  rw : ResponseWriter;
  req : Request;
  logs : list LogEntry;
  calls : list Call;
  world : World
}.

Definition M (A : Type) : Type := State → Completion A * State.

Definition ret {A} (a : A) : M A := fun s => (Ret a, s).

Definition bind {A B} (m : M A) (k : A → M B) : M B :=
  fun s =>
    match m s with
    | (Ret a, s') => k a s'
    | (Panic v, s') => (Panic v, s')
    end.

Definition gets {A} (f : State → A) : M A := fun s => (Ret (f s), s).

Definition modify (f : State → State) : M unit := fun s => (Ret tt, f s).

Definition panic {A} (v : string) : M A := fun s => (Panic v, s).

(** [defer func() { if r := recover(); r != nil { h(r) } }()] around a
    body: the handler runs where the body panicked, and a panic of the
    handler itself is not recovered. *)
Definition defer_recover (h : string → M unit) (body : M unit) : M unit :=
  fun s =>
    match body s with
    | (Ret tt, s') => (Ret tt, s')
    | (Panic v, s') => h v s'
    end.

Notation "x <- c1 ;; c2" := (bind c1 (fun x => c2))
  (at level 100, c1 at next level, right associativity, only parsing).
Notation "c1 ;; c2" := (bind c1 (fun _ => c2))
  (at level 100, right associativity, only parsing).

Definition withRW (w : ResponseWriter) (s : State) : State :=
  {| rw := w; req := req s; logs := logs s; calls := calls s; world := world s |}.

Definition withReqBody (b : Stream) (s : State) : State :=
  {| rw := rw s; req := setBody (req s) b; logs := logs s; calls := calls s;
     world := world s |}.

(** An operation on the response writer. *)
Definition onRW (f : ResponseWriter → ResponseWriter) : M unit :=
  modify (fun s => withRW (f (rw s)) s).

(** [a.logger.Print...]. *)
Definition log (e : LogEntry) : M unit :=
  modify (fun s =>
    {| rw := rw s; req := req s; logs := logs s ++ [e]; calls := calls s;
       world := world s |}).

(** [a.next.ServeHTTP(rw, req)]. *)
Definition callNext (a : Modsecurity) : M unit :=
  fun s =>
    let '(w', rw', req', c) := next a (world s) (rw s) (req s) in
    (c, {| rw := rw'; req := req'; logs := logs s;
           calls := calls s ++ [CallNext (rw s) (req s)]; world := w' |}).

(** [httpClient.Do(proxyReq)]: the response or the error. *)
Definition Do (p : ProxyRequest) : M (Response + string) :=
  fun s =>
    let '(w', r) := httpClient_Do (world s) p in
    let s' := {| rw := rw s; req := req s; logs := logs s;
                 calls := calls s ++ [CallDo p]; world := w' |} in
    match r with
    | DoResponse resp => (Ret (inl resp), s')
    | DoError msg => (Ret (inr msg), s')
    | DoPanic v => (Panic v, s')
    end.

(** [rw.WriteHeader(code)] in the pipeline. *)
Definition WriteHeader (code : Z) : M unit :=
  fun s =>
    match RW.WriteHeader code (rw s) with
    | Ret w => (Ret tt, withRW w s)
    | Panic v => (Panic v, s)
    end.

(** *** The helpers of the gate *)

(** [h.Set(k, v)] of [http.Header]. *)
Definition Header_Set (k v : string) (h : Header) : Header :=
  <[CanonicalMIMEHeaderKey k := [v]]> h.

(** The end of line [fmt.Fprintln] appends. *)
Definition newline : list Byte.byte := [Byte.x0a].

(** [http.Error(rw, error, code)]: the plain-text headers, the status,
    then [fmt.Fprintln(rw, error)]. *)
Definition http_Error (error : string) (code : Z) : M unit :=
  onRW (fun w => RW.withHeader (errorHeaders (rwHeader w)) w) ;;
  WriteHeader code ;;
  onRW (RW.Write (list_byte_of_string error ++ newline)).

(** [isWebsocket]. *)
Definition isWebsocket (r : Request) : bool :=
  existsb (fun header => String.eqb header "websocket")
          (default [] (ReqHeader r !! "Upgrade")).

(** The header loop of [forwardResponse]. *)
Definition copyHeaders (src : list (string * list string)) (dst : Header) : Header :=
  foldl (fun h '(k, vv) => foldl (fun h v => Header_Set k v h) h vv) dst src.

(** [forwardResponse]. *)
Definition forwardResponse (resp : Response) : M unit :=
  (* copy headers *)
  onRW (fun w => RW.withHeader (copyHeaders (range (RespHeader resp)) (rwHeader w)) w) ;;
  (* copy status *)
  WriteHeader (StatusCode resp) ;;
  (* copy body *)
  onRW (io_Copy (RespBody resp)).

(** [handleError]. *)
Definition handleError (a : Modsecurity) (errorMessage : string) (code : Z) : M unit :=
  log (LogPrintf errorMessage) ;;
  r <- gets req ;;
  log (LogRequest "ModSecurity::handleError Request: " r) ;;
  if interruptOnError a then
    log (LogPrint "ModSecurity::handleError [Interrupt]") ;;
    http_Error "" code
  else
    log (LogPrint "ModSecurity::handleError [Continue]") ;;
    callNext a.

(** The header loop of [ServeHTTP]: [proxyReq.Header[h] = val]. *)
Definition proxyHeader (h : Header) : Header :=
  foldl (fun m '(k, val) => <[k := val]> m) ∅ (range h).

(** [http.NewRequest(req.Method, url, bytes.NewReader(body))] with the
    header map filled in by the loop: an empty method means GET, and the
    URL is the parsed one. *)
Definition proxyRequest (r : Request) (url : string) (body : list Byte.byte)
  : ProxyRequest :=
  {| pMethod := if String.eqb (Method r) "" then "GET" else Method r;
     pURL := NewRequest_URL url;
     pHeader := proxyHeader (ReqHeader r); pBody := body |}.

(** The body of [ServeHTTP] below its deferred function. *)
Definition pipeline (a : Modsecurity) : M unit :=
  r <- gets req ;;
  (* Websocket not supported *)
  if isWebsocket r then callNext a
  else
    w <- gets rw ;;
    let '(body, err, rest, w') := ReadAll_MaxBytesReader w (maxBodySize a) (Body r) in
    modify (withReqBody rest) ;;
    modify (withRW w') ;;
    match err with
    | Some e =>
        if String.eqb e "http: request body too large" then
          handleError a ("body max limit reached: " +:+ e) StatusRequestEntityTooLarge
        else
          handleError a ("fail to read incoming request: " +:+ e) StatusBadGateway
    | None =>
        modify (withReqBody (NopCloser_NewReader body)) ;;
        let url := modSecurityUrl a +:+ RequestURI r in
        match NewRequest_error (Method r) url with
        | Some e =>
            handleError a ("fail to prepare forwarded request: " +:+ e) StatusBadGateway
        | None =>
            let proxyReq := proxyRequest r url body in
            res <- Do proxyReq ;;
            match res with
            | inr e =>
                handleError a ("fail to send HTTP request to modsec: " +:+ e) StatusBadGateway
            | inl resp =>
                if 400 <=? StatusCode resp then
                  (if 500 <=? StatusCode resp then
                     rq <- gets req ;;
                     log (LogRequest "OWASP 500 error. Request " rq) ;;
                     log (LogResponse "OWASP 500 error. Response " resp)
                   else ret tt) ;;
                  if (StatusCode resp <? 500) || negb (ignore500Error a) then
                    forwardResponse resp
                  else callNext a
                else callNext a
            end
        end
    end.

(** [ServeHTTP]. *)
Definition ServeHTTP (a : Modsecurity) : M unit :=
  defer_recover
    (fun r => handleError a ("Panic. Error: " +:+ r) StatusBadGateway)
    (pipeline a).

(** *** What an observer of one invocation sees *)

(** The result of [ServeHTTP] on a state. *)
Definition completion (out : Completion unit * State) : Completion unit := fst out.
Definition final (out : Completion unit * State) : State := snd out.

Definition isCallDo (c : Call) : bool :=
  match c with CallDo _ => true | CallNext _ _ => false end.

Definition isCallNext (c : Call) : bool :=
  match c with CallDo _ => false | CallNext _ _ => true end.

(** The decision service was contacted. *)
Definition contacted (s : State) : bool := existsb isCallDo (calls s).

(** The upstream handler was invoked. *)
Definition upstreamInvoked (s : State) : bool := existsb isCallNext (calls s).

(** The request as the upstream handler gets it after a successful
    capture: the body is a fresh reader over the captured bytes. *)
Definition replayable (r : Request) (body : list Byte.byte) : Request :=
  setBody r (NopCloser_NewReader body).

(** The state once the body is captured and [req.Body] reassigned. *)
Definition afterCapture (body : list Byte.byte) (s : State) : State :=
  withReqBody (NopCloser_NewReader body) s.

(** The outbound request [ServeHTTP] builds for a captured body. *)
Definition outbound (a : Modsecurity) (r : Request) (body : list Byte.byte)
  : ProxyRequest :=
  proxyRequest r (modSecurityUrl a +:+ RequestURI r) body.

(** The state once [httpClient.Do] has come back. *)
Definition afterDo (p : ProxyRequest) (w : World) (s : State) : State :=
  {| rw := rw s; req := req s; logs := logs s; calls := calls s ++ [CallDo p];
     world := w |}.

(** The state with more lines in the log. *)
Definition logged (es : list LogEntry) (s : State) : State :=
  {| rw := rw s; req := req s; logs := logs s ++ es; calls := calls s;
     world := world s |}.

(** Allow, as seen from outside: the decision service was asked with the
    outbound request, then the upstream handler was called with an
    untouched response writer and the request over the captured body. *)
Definition allowed (a : Modsecurity) (s : State) (body : list Byte.byte)
           (out : Completion unit * State) : Prop :=
  ∃ more,
    calls (final out) =
    calls s ++ CallDo (outbound a (req s) body)
            :: CallNext (rw s) (replayable (req s) body) :: more.

(** Block, as seen from outside: [ServeHTTP] returned, the only call was
    the one to the decision service, and the response writer is what
    [forwardResponse] makes of the inbound one. *)
Definition relayed (a : Modsecurity) (s : State) (body : list Byte.byte)
           (resp : Response) (out : Completion unit * State) : Prop :=
  completion out = Ret tt ∧
  calls (final out) = calls s ++ [CallDo (outbound a (req s) body)] ∧
  rw (final out) = rw (final (forwardResponse resp s)).

(** The three lines [handleError] logs. *)
Definition errorLog (a : Modsecurity) (errorMessage : string) (s : State)
  : list LogEntry :=
  [LogPrintf errorMessage;
   LogRequest "ModSecurity::handleError Request: " (req s);
   LogPrint (if interruptOnError a then "ModSecurity::handleError [Interrupt]"
             else "ModSecurity::handleError [Continue]")].

(** The two lines [ServeHTTP] logs on a verdict of 500 or more. *)
Definition verdictLog (resp : Response) (s : State) : list LogEntry :=
  [LogRequest "OWASP 500 error. Request " (req s);
   LogResponse "OWASP 500 error. Response " resp].

(** The response writer after [http.Error(rw, "", code)], for the codes
    of three digits the gate calls it with. *)
Definition errorWriter (code : Z) (w : ResponseWriter) : ResponseWriter :=
  RW.Write newline
    (RW.setStatus code (RW.withHeader (errorHeaders (rwHeader w)) w)).

(** The request and the writer of an upstream call made by the pipeline:
    the request line and the headers are the inbound ones, and nothing was
    sent on the writer. *)
Definition handedOver (s : State) (c : Call) : Prop :=
  ∃ w r, c = CallNext w r ∧
         Method r = Method (req s) ∧ RequestURI r = RequestURI (req s) ∧
         ReqHeader r = ReqHeader (req s) ∧
         rwStatus w = rwStatus (rw s) ∧ rwBody w = rwBody (rw s).

(** The call of the decision service, when the pipeline makes it. *)
Definition verdictCall (a : Modsecurity) (s : State) (c : Call) : Prop :=
  isWebsocket (req s) = false ∧
  ∃ body rest,
    ReadAll_MaxBytesReader (rw s) (maxBodySize a) (Body (req s)) = (body, None, rest, rw s) ∧
    NewRequest_error (Method (req s)) (modSecurityUrl a +:+ RequestURI (req s)) = None ∧
    c = CallDo (outbound a (req s) body).

End Gate.

(** ** A concrete deployment

    The decision service of the scenarios answers by the path it is asked
    for; the host [down] is unreachable.  The URLs of the scenarios are
    such that parsing leaves them as they are. *)

Module Scenario.

Definition bytes (s : string) : list Byte.byte := list_byte_of_string s.

Definition blocked : Response :=
  {| StatusCode := 403;
     RespHeader := {[ "X-Waf" := ["audit"; "deny"] ]};
     RespBody := NopCloser_NewReader (bytes "blocked") |}.

Definition verdict (code : Z) : Response :=
  {| StatusCode := code; RespHeader := ∅; RespBody := NopCloser_NewReader [] |}.

Definition Do (w : unit) (p : ProxyRequest) : unit * DoResult :=
  (w,
   if String.eqb (pURL p) "http://waf:8080/403" then DoResponse blocked
   else if String.eqb (pURL p) "http://waf:8080/500" then DoResponse (verdict 500)
   else if String.eqb (pURL p) "http://waf:8080/503" then DoResponse (verdict 503)
   else if String.eqb (pURL p) "http://waf:8080/1000" then DoResponse (verdict 1000)
   else if String.prefix "http://down" (pURL p) then
     DoError "dial tcp: connection refused"
   else DoResponse (verdict 200)).

#[export] Instance env : Environment :=
  {| World := unit;
     CanonicalMIMEHeaderKey := fun k => k;
     range := map_to_list;
     range_perm := fun h => reflexivity (map_to_list h);
     NewRequest_error := fun _ url =>
       if String.prefix ":" url then Some "parse: missing protocol scheme" else None;
     NewRequest_URL := fun url => url;
     httpClient_Do := Do;
     errorHeaders := fun h => h;
     requestTooLarge := fun h => <["Connection" := ["close"]]> h |}.

(** An upstream that reads the body and answers 200 "ok". *)
Definition upstream : Handler :=
  fun w rw r =>
    (w, RW.Write (bytes "ok") rw,
     setBody r {| pending := []; ending := ending (Body r) |}, Ret tt).

(** An upstream that panics, as a reverse proxy does when the client is
    gone. *)
Definition panicky : Handler :=
  fun w rw r => (w, rw, r, Panic "net/http: abort Handler").

Definition gate (h : Handler) (url : string) (max : Z) (interrupt ignore : bool)
  : Modsecurity :=
  {| next := h; modSecurityUrl := url; maxBodySize := max;
     interruptOnError := interrupt; ignore500Error := ignore; name := "waf" |}.

Definition request (uri : string) (hdr : Header) (b : Stream) : Request :=
  {| Method := "POST"; RequestURI := uri; ReqHeader := hdr; Body := b |}.

Definition emptyWriter : ResponseWriter :=
  {| rwHeader := ∅; rwStatus := None; rwBody := [] |}.

Definition start (r : Request) : State :=
  {| rw := emptyWriter; req := r; logs := []; calls := []; world := tt |}.

(** The configuration of the scenarios: 1024 bytes at most, interrupt on
    error, no tolerance for 5xx. *)
Definition gateA : Modsecurity := gate upstream "http://waf:8080" 1024 true false.

(** The same gate in continue mode. *)
Definition gateOpen : Modsecurity := gate upstream "http://waf:8080" 1024 false false.

(** The same gate tolerating 5xx verdicts. *)
Definition gateIgnore : Modsecurity := gate upstream "http://waf:8080" 1024 true true.

(** Gates whose decision service is unreachable. *)
Definition gateDown : Modsecurity := gate upstream "http://down" 1024 true false.
Definition gateDownOpen : Modsecurity := gate upstream "http://down" 1024 false false.

(** Gates in front of the panicking upstream. *)
Definition gatePanic : Modsecurity := gate panicky "http://waf:8080" 1024 true false.
Definition gatePanicOpen : Modsecurity := gate panicky "http://waf:8080" 1024 false false.

(** A gate configured with a negative maximum. *)
Definition gateNegative : Modsecurity := gate upstream "http://waf:8080" (-1) true false.

Definition hello : list Byte.byte := bytes "hello".

(** A body of 2000 bytes. *)
Definition big : list Byte.byte := repeat Byte.x41 2000.

Definition post (uri : string) (b : list Byte.byte) : State :=
  start (request uri ∅ (NopCloser_NewReader b)).

(** An upgrade request that carries a body all the same. *)
Definition upgrade (b : list Byte.byte) : State :=
  start (request "/" {[ "Upgrade" := ["websocket"] ]} (NopCloser_NewReader b)).

(** A request whose body breaks after three bytes. *)
Definition broken : State :=
  start (request "/" ∅ {| pending := bytes "abc"; ending := ReadError "unexpected EOF" |}).

(** An upstream that starts its answer and panics. *)
Definition latePanic : Handler :=
  fun w rw r => (w, RW.Write (bytes "par") rw, r, Panic "net/http: abort Handler").

Definition gateLate : Modsecurity := gate latePanic "http://waf:8080" 1024 true false.

(** One invocation of the gate in this deployment. *)
Definition run (a : Modsecurity) (s : State) : Completion unit * State :=
  ServeHTTP (H := env) a s.

End Scenario.

(** ** Header maps *)

Section Headers.

Context `{Environment}.

(** Setting a key twice keeps the second value. *)
Lemma Header_Set_twice k v1 v2 (h : Header) :
  Header_Set k v2 (Header_Set k v1 h) = Header_Set k v2 h.
Proof. unfold Header_Set. apply insert_insert_eq. Qed.

(** The inner loop of [forwardResponse] leaves the last value of the
    line, and nothing when the line has no value. *)
Lemma set_values_last k vv (h : Header) :
  foldl (fun h v => Header_Set k v h) h vv =
  match last vv with
  | Some v => Header_Set k v h
  | None => h
  end.
Proof.
  induction vv as [|v vv IH] using rev_ind; [done|].
  rewrite foldl_app, last_snoc, IH. simpl.
  destruct (last vv); [apply Header_Set_twice | done].
Qed.

Lemma copyHeaders_snoc l k vv (dst : Header) :
  copyHeaders (l ++ [(k, vv)]) dst =
  match last vv with
  | Some v => Header_Set k v (copyHeaders l dst)
  | None => copyHeaders l dst
  end.
Proof. unfold copyHeaders. rewrite foldl_app. simpl. apply set_values_last. Qed.

(** A canonical key that no line with a value maps to keeps its entry. *)
Lemma copyHeaders_lookup_other l (dst : Header) c :
  (∀ k vv, (k, vv) ∈ l → vv ≠ [] → CanonicalMIMEHeaderKey k ≠ c) →
  copyHeaders l dst !! c = dst !! c.
Proof.
  induction l as [|[k vv] l IH] using rev_ind; intros Hne; [done|].
  rewrite copyHeaders_snoc.
  assert (copyHeaders l dst !! c = dst !! c) as Hl.
  { apply IH. intros k' vv' Hin. apply Hne, elem_of_app. by left. }
  destruct (last vv) as [v|] eqn:Hlast; [|done].
  unfold Header_Set. rewrite lookup_insert_ne; [done|].
  apply (Hne k vv); [apply elem_of_app; right; apply list_elem_of_here|].
  by intros ->.
Qed.

(** When every line that maps to the canonical key of [k] ends in [v],
    the key holds exactly [v] afterwards. *)
Lemma copyHeaders_lookup l (dst : Header) k vv v :
  (k, vv) ∈ l → last vv = Some v →
  (∀ k' vv', (k', vv') ∈ l → vv' ≠ [] →
     CanonicalMIMEHeaderKey k' = CanonicalMIMEHeaderKey k → last vv' = Some v) →
  copyHeaders l dst !! CanonicalMIMEHeaderKey k = Some [v].
Proof.
  induction l as [|[k1 vv1] l IH] using rev_ind; intros Hin Hlast Hagree.
  { by apply elem_of_nil in Hin. }
  rewrite copyHeaders_snoc.
  destruct (last vv1) as [v1|] eqn:Hl1.
  - unfold Header_Set.
    destruct (decide (CanonicalMIMEHeaderKey k1 = CanonicalMIMEHeaderKey k)) as [Heq|Hneq].
    + rewrite Heq, lookup_insert_eq.
      assert (last vv1 = Some v) as Hv.
      { apply (Hagree k1 vv1); [|by intros ->|done].
        apply elem_of_app; right; apply list_elem_of_here. }
      congruence.
    + rewrite lookup_insert_ne by done.
      apply IH; [|done|].
      * apply elem_of_app in Hin as [Hin|Hin]; [done|].
        apply list_elem_of_singleton in Hin. congruence.
      * intros k' vv' Hin'. apply Hagree, elem_of_app. by left.
  - apply IH; [|done|].
    + apply elem_of_app in Hin as [Hin|Hin]; [done|].
      apply list_elem_of_singleton in Hin. congruence.
    + intros k' vv' Hin'. apply Hagree, elem_of_app. by left.
Qed.

(** [range] visits exactly the entries of the map. *)
Lemma elem_of_range (h : Header) k vv :
  (k, vv) ∈ range h ↔ h !! k = Some vv.
Proof. rewrite (range_perm h). apply elem_of_map_to_list. Qed.

Lemma NoDup_range_keys (h : Header) : NoDup (range h).*1.
Proof. rewrite (range_perm h). apply NoDup_fst_map_to_list. Qed.

(** The loop of [ServeHTTP] copies the map, whatever the order. *)
Lemma proxyHeader_copy (h : Header) : proxyHeader h = h.
Proof.
  unfold proxyHeader.
  assert (∀ l (m : Header), NoDup l.*1 →
            foldl (fun m '(k, val) => <[k := val]> m) m l = list_to_map l ∪ m) as Hfold.
  { induction l as [|[k val] l IH]; intros m Hnd; simpl.
    - by rewrite (left_id_L ∅ (∪)).
    - apply NoDup_cons in Hnd as [Hk Hnd]. rewrite IH by done.
      rewrite <- insert_union_l, insert_union_r; [done|].
      by apply not_elem_of_list_to_map_1. }
  rewrite Hfold by apply NoDup_range_keys.
  rewrite (right_id_L ∅ (∪)).
  apply map_eq. intros k. apply option_eq. intros vv.
  rewrite <- elem_of_list_to_map by apply NoDup_range_keys.
  apply elem_of_range.
Qed.

End Headers.

(** ** Running the pipeline *)

Section Pipeline.

Context `{Environment}.

Implicit Types (a : Modsecurity) (s : State).

Lemma callNext_calls a s :
  calls (snd (callNext a s)) = calls s ++ [CallNext (rw s) (req s)].
Proof. unfold callNext. by destruct (next a _ _ _) as [[[? ?] ?] ?]. Qed.

Lemma callNext_logged a es s :
  calls (snd (callNext a (logged es s))) = calls s ++ [CallNext (rw s) (req s)].
Proof. by rewrite callNext_calls. Qed.

(** [WriteHeader] returns on a code of three digits, and whenever the
    status was already written. *)
Lemma WriteHeader_run code s :
  RW.validCode code = true ∨ is_Some (rwStatus (rw s)) →
  WriteHeader code s = (Ret tt, withRW (RW.setStatus code (rw s)) s).
Proof.
  unfold WriteHeader, RW.WriteHeader, RW.setStatus.
  intros [Hv|[c Hc]].
  - rewrite Hv. by destruct (rwStatus (rw s)).
  - rewrite Hc. by destruct (rw s).
Qed.

(** [WriteHeader] panics only when it is to write the status, on a code
    that has not three digits, and then leaves everything as it was. *)
Lemma WriteHeader_panics code s v s1 :
  WriteHeader code s = (Panic v, s1) →
  s1 = s ∧ rwStatus (rw s) = None ∧ RW.validCode code = false.
Proof.
  unfold WriteHeader, RW.WriteHeader.
  destruct (rwStatus (rw s)); [done|].
  destruct (RW.validCode code); [done|].
  intros Heq. by inversion Heq.
Qed.

(** [http.Error] touches the response writer only. *)
Lemma http_Error_frame error code s :
  calls (snd (http_Error error code s)) = calls s ∧
  logs (snd (http_Error error code s)) = logs s.
Proof.
  unfold http_Error, bind, onRW, modify, WriteHeader. cbn.
  by destruct (RW.WriteHeader code _).
Qed.

(** In interrupt mode [handleError] is a call of [http.Error]. *)
Lemma handleError_interrupt_eq a errorMessage code s :
  interruptOnError a = true →
  handleError a errorMessage code s =
  http_Error "" code (logged (errorLog a errorMessage s) s).
Proof.
  intros Hi. unfold handleError, errorLog, bind, gets, log, modify.
  rewrite Hi. cbn. unfold logged. cbn.
  by rewrite <- !app_assoc.
Qed.

(** In interrupt mode [handleError] answers through [http.Error] and
    returns, the code being one of three digits. *)
Lemma handleError_interrupt a errorMessage code s :
  RW.validCode code = true →
  interruptOnError a = true →
  handleError a errorMessage code s =
  (Ret tt, withRW (errorWriter code (rw s)) (logged (errorLog a errorMessage s) s)).
Proof.
  intros Hv Hi. rewrite handleError_interrupt_eq by done.
  unfold http_Error, bind, onRW, modify. cbn [fst snd].
  rewrite WriteHeader_run by (by left). done.
Qed.

(** In continue mode [handleError] is a call of the upstream handler. *)
Lemma handleError_continue a errorMessage code s :
  interruptOnError a = false →
  handleError a errorMessage code s =
  callNext a (logged (errorLog a errorMessage s) s).
Proof.
  intros Hi. unfold handleError, errorLog, bind, gets, log, modify.
  rewrite Hi. cbn. unfold logged. cbn.
  by rewrite <- !app_assoc.
Qed.

(** [handleError] never contacts the decision service: it adds at most
    one call, of the upstream handler. *)
Lemma handleError_calls a errorMessage code s :
  calls (snd (handleError a errorMessage code s)) =
  calls s ++ (if interruptOnError a then [] else [CallNext (rw s) (req s)]).
Proof.
  destruct (interruptOnError a) eqn:Hi.
  - rewrite handleError_interrupt_eq by done.
    destruct (http_Error_frame "" code (logged (errorLog a errorMessage s) s)) as [-> _].
    cbn. by rewrite app_nil_r.
  - rewrite handleError_continue by done. apply callNext_logged.
Qed.

(** What the deferred function adds to the calls of the pipeline. *)
Lemma ServeHTTP_calls a s :
  ∃ more, calls (snd (ServeHTTP a s)) = calls (snd (pipeline a s)) ++ more
          ∧ forallb isCallNext more = true.
Proof.
  unfold ServeHTTP, defer_recover.
  destruct (pipeline a s) as [[[]|v] s'] eqn:Hp; cbn [snd].
  - exists []. by rewrite app_nil_r.
  - rewrite handleError_calls. eexists. split; [done|].
    by destruct (interruptOnError a).
Qed.

Lemma ServeHTTP_returns a s s' :
  pipeline a s = (Ret tt, s') → ServeHTTP a s = (Ret tt, s').
Proof. intros Hp. unfold ServeHTTP, defer_recover. by rewrite Hp. Qed.

(** *** The stages of the pipeline *)

Lemma pipeline_websocket a s :
  isWebsocket (req s) = true → pipeline a s = callNext a s.
Proof. intros Hws. unfold pipeline, bind, gets. by rewrite Hws. Qed.

Lemma pipeline_read_error a s body e rest w1 :
  isWebsocket (req s) = false →
  ReadAll_MaxBytesReader (rw s) (maxBodySize a) (Body (req s)) = (body, Some e, rest, w1) →
  pipeline a s =
  (if String.eqb e errBodyTooLarge then
     handleError a ("body max limit reached: " +:+ e) StatusRequestEntityTooLarge
   else
     handleError a ("fail to read incoming request: " +:+ e) StatusBadGateway)
    (withRW w1 (withReqBody rest s)).
Proof.
  intros Hws Hread. unfold pipeline, bind, gets, modify.
  rewrite Hws, Hread. cbn. unfold errBodyTooLarge.
  by destruct (String.eqb e _).
Qed.

Lemma pipeline_request_error a s body rest e :
  isWebsocket (req s) = false →
  ReadAll_MaxBytesReader (rw s) (maxBodySize a) (Body (req s)) = (body, None, rest, rw s) →
  NewRequest_error (Method (req s)) (modSecurityUrl a +:+ RequestURI (req s)) = Some e →
  pipeline a s =
  handleError a ("fail to prepare forwarded request: " +:+ e) StatusBadGateway
              (afterCapture body s).
Proof.
  intros Hws Hread Hnew. unfold pipeline, bind, gets, modify.
  rewrite Hws, Hread. cbn. by rewrite Hnew.
Qed.

Lemma pipeline_transport_error a s body rest w e :
  isWebsocket (req s) = false →
  ReadAll_MaxBytesReader (rw s) (maxBodySize a) (Body (req s)) = (body, None, rest, rw s) →
  NewRequest_error (Method (req s)) (modSecurityUrl a +:+ RequestURI (req s)) = None →
  httpClient_Do (world s) (outbound a (req s) body) = (w, DoError e) →
  pipeline a s =
  handleError a ("fail to send HTTP request to modsec: " +:+ e) StatusBadGateway
              (afterDo (outbound a (req s) body) w (afterCapture body s)).
Proof.
  intros Hws Hread Hnew Hdo. unfold pipeline, bind, gets, modify, Do.
  rewrite Hws, Hread. cbn. rewrite Hnew. fold (outbound a (req s) body).
  cbn -[outbound]. by rewrite Hdo.
Qed.

Lemma pipeline_transport_panic a s body rest w v :
  isWebsocket (req s) = false →
  ReadAll_MaxBytesReader (rw s) (maxBodySize a) (Body (req s)) = (body, None, rest, rw s) →
  NewRequest_error (Method (req s)) (modSecurityUrl a +:+ RequestURI (req s)) = None →
  httpClient_Do (world s) (outbound a (req s) body) = (w, DoPanic v) →
  pipeline a s = (Panic v, afterDo (outbound a (req s) body) w (afterCapture body s)).
Proof.
  intros Hws Hread Hnew Hdo. unfold pipeline, bind, gets, modify, Do.
  rewrite Hws, Hread. cbn. rewrite Hnew. fold (outbound a (req s) body).
  cbn -[outbound]. by rewrite Hdo.
Qed.

Lemma pipeline_verdict a s body rest w resp :
  isWebsocket (req s) = false →
  ReadAll_MaxBytesReader (rw s) (maxBodySize a) (Body (req s)) = (body, None, rest, rw s) →
  NewRequest_error (Method (req s)) (modSecurityUrl a +:+ RequestURI (req s)) = None →
  httpClient_Do (world s) (outbound a (req s) body) = (w, DoResponse resp) →
  let s1 := afterDo (outbound a (req s) body) w (afterCapture body s) in
  pipeline a s =
  if 400 <=? StatusCode resp then
    if 500 <=? StatusCode resp then
      if ignore500Error a then callNext a (logged (verdictLog resp s1) s1)
      else forwardResponse resp (logged (verdictLog resp s1) s1)
    else forwardResponse resp s1
  else callNext a s1.
Proof.
  intros Hws Hread Hnew Hdo s1. unfold pipeline, bind, gets, modify, Do.
  rewrite Hws, Hread. cbn. rewrite Hnew. fold (outbound a (req s) body).
  cbn -[outbound]. rewrite Hdo. cbn -[outbound callNext forwardResponse]. fold s1.
  destruct (400 <=? StatusCode resp) eqn:H4; [|done].
  destruct (500 <=? StatusCode resp) eqn:H5.
  - assert ((StatusCode resp <? 500) = false) as -> by lia.
    unfold log, modify.
    destruct (ignore500Error a); cbn -[outbound callNext forwardResponse];
      f_equal; unfold s1, logged, verdictLog, afterDo, afterCapture, withReqBody, setBody;
      cbn -[outbound]; by rewrite <- app_assoc.
  - assert ((StatusCode resp <? 500) = true) as -> by lia.
    done.
Qed.

(** [forwardResponse] returns, having touched the response writer only. *)
Lemma forwardResponse_run resp s :
  RW.validCode (StatusCode resp) = true ∨ is_Some (rwStatus (rw s)) →
  forwardResponse resp s =
  (Ret tt,
   withRW (io_Copy (RespBody resp)
             (RW.setStatus (StatusCode resp)
                (RW.withHeader
                   (copyHeaders (range (RespHeader resp)) (rwHeader (rw s))) (rw s))))
          s).
Proof.
  intros Hv. unfold forwardResponse, bind, onRW, modify. cbn [fst snd].
  by rewrite WriteHeader_run.
Qed.

(** A verdict status the pipeline relays has three digits as soon as it is
    at most 999. *)
Lemma validCode_relay code :
  400 ≤ code → code ≤ 999 → RW.validCode code = true.
Proof. unfold RW.validCode. lia. Qed.

(** [forwardResponse] panics only in [WriteHeader]: the headers are copied
    by then, no status and no byte was written, and nothing else moved. *)
Lemma forwardResponse_panics resp s v s1 :
  forwardResponse resp s = (Panic v, s1) →
  s1 = withRW (RW.withHeader
                 (copyHeaders (range (RespHeader resp)) (rwHeader (rw s))) (rw s)) s ∧
  rwStatus (rw s) = None ∧
  RW.validCode (StatusCode resp) = false.
Proof.
  unfold forwardResponse, bind, onRW, modify. cbn [fst snd].
  destruct (WriteHeader _ _) as [[[]|v'] s2] eqn:Hw; [done|].
  intros Heq. inversion Heq; subst.
  by destruct (WriteHeader_panics _ _ _ _ Hw) as (-> & Hst & Hv).
Qed.

(** Whether it returns or panics, [forwardResponse] makes no call, logs
    nothing, leaves the request alone, and has copied the headers. *)
Lemma forwardResponse_frame resp s :
  calls (snd (forwardResponse resp s)) = calls s ∧
  logs (snd (forwardResponse resp s)) = logs s ∧
  req (snd (forwardResponse resp s)) = req s ∧
  rwHeader (rw (snd (forwardResponse resp s))) =
    copyHeaders (range (RespHeader resp)) (rwHeader (rw s)).
Proof.
  destruct (forwardResponse resp s) as [[[]|v] s1] eqn:Hf.
  - unfold forwardResponse, bind, onRW, modify in Hf. cbn [fst snd] in Hf.
    destruct (WriteHeader _ _) as [[[]|v'] s2] eqn:Hw; [|done].
    inversion Hf; subst. clear Hf.
    unfold WriteHeader in Hw. cbn [rw withRW] in Hw.
    destruct (RW.WriteHeader _ _) as [w|v'] eqn:Hrw; [|done].
    inversion Hw; subst. clear Hw. cbn.
    repeat split.
    unfold io_Copy, RW.Write, RW.setStatus.
    unfold RW.WriteHeader, RW.setStatus in Hrw. cbn in Hrw.
    destruct (rwStatus (rw s)) eqn:Hst;
      [|destruct (RW.validCode (StatusCode resp)); [|done]];
      inversion Hrw; subst; cbn; rewrite ?Hst;
      by destruct (pending (RespBody resp)).
  - by destruct (forwardResponse_panics _ _ _ _ Hf) as (-> & _ & _).
Qed.

Lemma forwardResponse_calls resp s :
  calls (snd (forwardResponse resp s)) = calls s.
Proof. apply forwardResponse_frame. Qed.

Lemma forwardResponse_logs resp s :
  logs (snd (forwardResponse resp s)) = logs s.
Proof. apply forwardResponse_frame. Qed.

End Pipeline.

(** ** The verdict arbiter and the response relay *)

Section Verdict.

Context `{Environment}.

Implicit Types (a : Modsecurity) (s : State).

Lemma allowed_of_callNext a s body s1 :
  rw s1 = rw s → req s1 = replayable (req s) body →
  calls s1 = calls s ++ [CallDo (outbound a (req s) body)] →
  pipeline a s = callNext a s1 →
  allowed a s body (ServeHTTP a s).
Proof.
  intros Hrw Hreq Hcalls Hp. destruct (ServeHTTP_calls a s) as (more & Hc & _).
  exists more. unfold final.
  rewrite Hc, Hp, callNext_calls, Hrw, Hreq, Hcalls.
  by rewrite <- !app_assoc.
Qed.

Lemma relayed_of_forward a s body resp s1 :
  RW.validCode (StatusCode resp) = true →
  rw s1 = rw s →
  calls s1 = calls s ++ [CallDo (outbound a (req s) body)] →
  pipeline a s = forwardResponse resp s1 →
  relayed a s body resp (ServeHTTP a s).
Proof.
  intros Hv Hrw Hcalls Hp. rewrite forwardResponse_run in Hp by (by left).
  rewrite (ServeHTTP_returns _ _ _ Hp).
  repeat split; [done|]. rewrite forwardResponse_run by (by left).
  cbn. by rewrite Hrw.
Qed.

(** C1, as amended.  For every verdict response [ServeHTTP] branches on
    the status code: below 400 the upstream handler is invoked; from 400 up
    to 499 the verdict response is relayed, whatever [ignore500Error] says;
    from 500 up to 999, the codes [WriteHeader] accepts, it is relayed when
    [ignore500Error] is false; from 500 on the upstream handler is invoked
    when [ignore500Error] is true. *)
Theorem verdict_branches a s body rest w resp :
  isWebsocket (req s) = false →
  ReadAll_MaxBytesReader (rw s) (maxBodySize a) (Body (req s)) = (body, None, rest, rw s) →
  NewRequest_error (Method (req s)) (modSecurityUrl a +:+ RequestURI (req s)) = None →
  httpClient_Do (world s) (outbound a (req s) body) = (w, DoResponse resp) →
  (StatusCode resp < 400 → allowed a s body (ServeHTTP a s)) ∧
  (400 ≤ StatusCode resp < 500 → relayed a s body resp (ServeHTTP a s)) ∧
  (500 ≤ StatusCode resp ≤ 999 → ignore500Error a = false →
     relayed a s body resp (ServeHTTP a s)) ∧
  (500 ≤ StatusCode resp → ignore500Error a = true →
     allowed a s body (ServeHTTP a s)).
Proof.
  intros Hws Hread Hnew Hdo.
  pose proof (pipeline_verdict a s body rest w resp Hws Hread Hnew Hdo) as Hp.
  cbv zeta in Hp.
  split; [|split; [|split]].
  - intros Hlt. assert ((400 <=? StatusCode resp) = false) as H4 by lia.
    rewrite H4 in Hp. by refine (allowed_of_callNext a s body _ _ _ _ Hp).
  - intros [Hge Hlt].
    assert ((400 <=? StatusCode resp) = true) as H4 by lia.
    assert ((500 <=? StatusCode resp) = false) as H5 by lia.
    rewrite H4, H5 in Hp.
    refine (relayed_of_forward a s body resp _ _ _ _ Hp); [|done..].
    apply validCode_relay; lia.
  - intros [Hge Hle] Hig.
    assert ((400 <=? StatusCode resp) = true) as H4 by lia.
    assert ((500 <=? StatusCode resp) = true) as H5 by lia.
    rewrite H4, H5, Hig in Hp.
    refine (relayed_of_forward a s body resp _ _ _ _ Hp); [|done..].
    apply validCode_relay; lia.
  - intros Hge Hig.
    assert ((400 <=? StatusCode resp) = true) as H4 by lia.
    assert ((500 <=? StatusCode resp) = true) as H5 by lia.
    rewrite H4, H5, Hig in Hp. by refine (allowed_of_callNext a s body _ _ _ _ Hp).
Qed.

(** A body within the limit is read in full. *)
Lemma ReadAll_fits (w : ResponseWriter) n (b : Stream) :
  Z.of_nat (length (pending b)) ≤ Z.max 0 n →
  ReadAll_MaxBytesReader w n b =
  (pending b,
   match ending b with EOF => None | ReadError m => Some m end,
   {| pending := []; ending := ending b |},
   w).
Proof.
  intros Hle. unfold ReadAll_MaxBytesReader.
  by assert ((Z.of_nat (length (pending b)) <=? Z.max 0 n) = true) as -> by lia.
Qed.

(** A body beyond the limit fails with the size error, one byte past the
    limit, and the writer is told. *)
Lemma ReadAll_overflow (w : ResponseWriter) n (b : Stream) :
  Z.max 0 n < Z.of_nat (length (pending b)) →
  ReadAll_MaxBytesReader w n b =
  (take (Z.to_nat (Z.max 0 n)) (pending b),
   Some errBodyTooLarge,
   {| pending := drop (Z.to_nat (Z.max 0 n) + 1) (pending b); ending := ending b |},
   limitHit w).
Proof.
  intros Hlt. unfold ReadAll_MaxBytesReader.
  by assert ((Z.of_nat (length (pending b)) <=? Z.max 0 n) = false) as -> by lia.
Qed.

(** Reading sends nothing: a writer nothing was sent on stays so. *)
Lemma ReadAll_fresh (w : ResponseWriter) n (b : Stream) body err rest w1 :
  ReadAll_MaxBytesReader w n b = (body, err, rest, w1) →
  RW.fresh w → RW.fresh w1.
Proof.
  unfold ReadAll_MaxBytesReader. intros Hread Hfresh.
  destruct (_ <=? _); inversion Hread; subst; [done|].
  by destruct Hfresh.
Qed.

(** C2. A request whose body has at most [maxBodySize] bytes and whose
    verdict has a status below 400 reaches the upstream handler with a
    fresh reader over exactly the bytes of the inbound body, the rest of
    the request and the response writer untouched. *)
Theorem allowed_body_identical a s w resp :
  isWebsocket (req s) = false →
  ending (Body (req s)) = EOF →
  Z.of_nat (length (pending (Body (req s)))) ≤ maxBodySize a →
  NewRequest_error (Method (req s)) (modSecurityUrl a +:+ RequestURI (req s)) = None →
  httpClient_Do (world s) (outbound a (req s) (pending (Body (req s)))) =
    (w, DoResponse resp) →
  StatusCode resp < 400 →
  ∃ r more,
    calls (final (ServeHTTP a s)) =
      calls s ++ CallDo (outbound a (req s) (pending (Body (req s))))
              :: CallNext (rw s) r :: more ∧
    pending (Body r) = pending (Body (req s)) ∧
    ending (Body r) = EOF ∧
    Method r = Method (req s) ∧
    RequestURI r = RequestURI (req s) ∧
    ReqHeader r = ReqHeader (req s).
Proof.
  intros Hws Heof Hlen Hnew Hdo Hlt.
  assert (ReadAll_MaxBytesReader (rw s) (maxBodySize a) (Body (req s)) =
          (pending (Body (req s)), None, {| pending := []; ending := EOF |}, rw s))
    as Hread.
  { rewrite ReadAll_fits by lia. by rewrite Heof. }
  pose proof (pipeline_verdict a s _ _ w resp Hws Hread Hnew Hdo) as Hp.
  cbv zeta in Hp.
  assert ((400 <=? StatusCode resp) = false) as H4 by lia.
  rewrite H4 in Hp.
  assert (allowed a s (pending (Body (req s))) (ServeHTTP a s)) as [more Hc].
  { by refine (allowed_of_callNext a s _ _ _ _ _ Hp). }
  exists (replayable (req s) (pending (Body (req s)))), more.
  by repeat split.
Qed.

(** The verdict response is relayed on the Block outcome. *)
Lemma block_relayed a s body rest w resp :
  isWebsocket (req s) = false →
  ReadAll_MaxBytesReader (rw s) (maxBodySize a) (Body (req s)) = (body, None, rest, rw s) →
  NewRequest_error (Method (req s)) (modSecurityUrl a +:+ RequestURI (req s)) = None →
  httpClient_Do (world s) (outbound a (req s) body) = (w, DoResponse resp) →
  400 ≤ StatusCode resp ≤ 999 →
  StatusCode resp < 500 ∨ ignore500Error a = false →
  relayed a s body resp (ServeHTTP a s).
Proof.
  intros Hws Hread Hnew Hdo [Hge Hle] Hblock.
  pose proof (pipeline_verdict a s body rest w resp Hws Hread Hnew Hdo) as Hp.
  cbv zeta in Hp.
  assert ((400 <=? StatusCode resp) = true) as H4 by lia.
  assert (RW.validCode (StatusCode resp) = true) as Hv by by apply validCode_relay.
  rewrite H4 in Hp.
  destruct (500 <=? StatusCode resp) eqn:H5.
  - destruct Hblock as [Hlt|Hig]; [lia|]. rewrite Hig in Hp.
    by refine (relayed_of_forward a s body resp _ Hv _ _ Hp).
  - by refine (relayed_of_forward a s body resp _ Hv _ _ Hp).
Qed.

(** What [forwardResponse] leaves on a writer nothing was sent on. *)
Lemma forwardResponse_fresh resp s :
  RW.validCode (StatusCode resp) = true →
  RW.fresh (rw s) →
  rwStatus (rw (final (forwardResponse resp s))) = Some (StatusCode resp) ∧
  rwBody (rw (final (forwardResponse resp s))) = pending (RespBody resp) ∧
  rwHeader (rw (final (forwardResponse resp s))) =
    copyHeaders (range (RespHeader resp)) (rwHeader (rw s)).
Proof.
  intros Hv [Hst Hbody]. rewrite forwardResponse_run by (by left). cbn.
  unfold io_Copy, RW.Write, RW.setStatus. cbn. rewrite Hst. cbn.
  destruct (pending (RespBody resp)) as [|b p] eqn:Hp; cbn.
  - done.
  - by rewrite Hbody.
Qed.

(** C3, as amended.  On the Block outcome with a status code of at most
    999, the codes [WriteHeader] accepts, the client response carries the
    status code of the verdict response, each of its header lines under the
    canonical key holding the last value of the line (a key no line maps to
    keeps what it had), and its body byte for byte; [ServeHTTP] returns and
    the upstream handler is not invoked. *)
Theorem block_relays_verdict a s body rest w resp :
  isWebsocket (req s) = false →
  ReadAll_MaxBytesReader (rw s) (maxBodySize a) (Body (req s)) = (body, None, rest, rw s) →
  NewRequest_error (Method (req s)) (modSecurityUrl a +:+ RequestURI (req s)) = None →
  httpClient_Do (world s) (outbound a (req s) body) = (w, DoResponse resp) →
  400 ≤ StatusCode resp ≤ 999 →
  StatusCode resp < 500 ∨ ignore500Error a = false →
  RW.fresh (rw s) →
  completion (ServeHTTP a s) = Ret tt ∧
  rwStatus (rw (final (ServeHTTP a s))) = Some (StatusCode resp) ∧
  rwBody (rw (final (ServeHTTP a s))) = pending (RespBody resp) ∧
  (∀ k vv v,
     RespHeader resp !! k = Some vv → last vv = Some v →
     (∀ k' vv', RespHeader resp !! k' = Some vv' → vv' ≠ [] →
        CanonicalMIMEHeaderKey k' = CanonicalMIMEHeaderKey k → k' = k) →
     rwHeader (rw (final (ServeHTTP a s))) !! CanonicalMIMEHeaderKey k = Some [v]) ∧
  (∀ c,
     (∀ k vv, RespHeader resp !! k = Some vv → vv ≠ [] →
        CanonicalMIMEHeaderKey k ≠ c) →
     rwHeader (rw (final (ServeHTTP a s))) !! c = rwHeader (rw s) !! c) ∧
  calls (final (ServeHTTP a s)) = calls s ++ [CallDo (outbound a (req s) body)] ∧
  upstreamInvoked (final (ServeHTTP a s)) = upstreamInvoked s.
Proof.
  intros Hws Hread Hnew Hdo Hge Hblock Hfresh.
  destruct (block_relayed a s body rest w resp Hws Hread Hnew Hdo Hge Hblock)
    as (Hret & Hcalls & Hrw).
  assert (RW.validCode (StatusCode resp) = true) as Hv
    by (apply validCode_relay; lia).
  destruct (forwardResponse_fresh resp s Hv Hfresh) as (Hst & Hbody & Hhdr).
  rewrite Hrw, Hst, Hbody, Hhdr, Hcalls.
  repeat apply conj; try done.
  - intros k vv v Hk Hlast Huniq.
    apply (copyHeaders_lookup _ _ k vv v); [by apply elem_of_range|done|].
    intros k' vv' Hin Hne Hcanon. apply elem_of_range in Hin.
    pose proof (Huniq k' vv' Hin Hne Hcanon) as ->. congruence.
  - intros c Hother. apply copyHeaders_lookup_other.
    intros k vv Hin. apply elem_of_range in Hin. eauto.
  - unfold upstreamInvoked. rewrite Hcalls, existsb_app. cbn.
    by rewrite !orb_false_r.
Qed.

End Verdict.

(** ** The error policy *)

Section ErrorPolicy.

Context `{Environment}.

Implicit Types (a : Modsecurity) (s : State).

Lemma rwBody_setStatus code (w : ResponseWriter) :
  rwBody (RW.setStatus code w) = rwBody w.
Proof. unfold RW.setStatus. by destruct (rwStatus w). Qed.

Lemma rwStatus_setStatus code (w : ResponseWriter) :
  rwStatus (RW.setStatus code w) = Some (default code (rwStatus w)).
Proof. unfold RW.setStatus. by destruct (rwStatus w) eqn:Hst. Qed.

Lemma rwBody_Write p (w : ResponseWriter) :
  rwBody (RW.Write p w) = rwBody w ++ p.
Proof. unfold RW.Write. cbn. by rewrite rwBody_setStatus. Qed.

Lemma rwStatus_Write p (w : ResponseWriter) :
  rwStatus (RW.Write p w) = Some (default StatusOK (rwStatus w)).
Proof. unfold RW.Write. cbn. by rewrite rwStatus_setStatus. Qed.

(** [http.Error] with the empty message on a writer nothing was sent on:
    the status is the code and the body is the end of line that follows
    the message. *)
Lemma errorWriter_fresh code (w : ResponseWriter) :
  RW.fresh w →
  rwStatus (errorWriter code w) = Some code ∧ rwBody (errorWriter code w) = newline.
Proof.
  intros [Hst Hbody]. unfold errorWriter, RW.Write, RW.setStatus. cbn.
  rewrite Hst. cbn. by rewrite Hbody.
Qed.

(** A request the pipeline hands to [handleError] in interrupt mode. *)
Lemma policy_interrupt a s errorMessage code s1 :
  pipeline a s = handleError a errorMessage code s1 →
  interruptOnError a = true →
  RW.validCode code = true →
  ServeHTTP a s =
  (Ret tt, withRW (errorWriter code (rw s1)) (logged (errorLog a errorMessage s1) s1)).
Proof.
  intros Hp Hi Hv. apply ServeHTTP_returns.
  by rewrite Hp, handleError_interrupt.
Qed.

(** A request the pipeline hands to [handleError] in continue mode. *)
Lemma policy_continue a s errorMessage code s1 :
  pipeline a s = handleError a errorMessage code s1 →
  interruptOnError a = false →
  ∃ more,
    calls (final (ServeHTTP a s)) = calls s1 ++ CallNext (rw s1) (req s1) :: more ∧
    forallb isCallNext more = true.
Proof.
  intros Hp Hi. destruct (ServeHTTP_calls a s) as (more & Hc & Hmore).
  exists more. split; [|done]. unfold final.
  rewrite Hc, Hp, handleError_calls, Hi. by rewrite <- app_assoc.
Qed.

Lemma contacted_app s (cs : list Call) s' :
  calls s' = calls s ++ cs → forallb isCallNext cs = true →
  contacted s' = contacted s.
Proof.
  intros Hc Hcs. unfold contacted. rewrite Hc, existsb_app.
  assert (existsb isCallDo cs = false) as ->; [|by rewrite orb_false_r].
  clear Hc. induction cs as [|[p|w r] cs IH]; cbn in *; try done. by apply IH.
Qed.

Lemma upstreamInvoked_app s (cs : list Call) s' :
  calls s' = calls s ++ cs → forallb isCallDo cs = true →
  upstreamInvoked s' = upstreamInvoked s.
Proof.
  intros Hc Hcs. unfold upstreamInvoked. rewrite Hc, existsb_app.
  assert (existsb isCallNext cs = false) as ->; [|by rewrite orb_false_r].
  clear Hc. induction cs as [|[p|w r] cs IH]; cbn in *; try done. by apply IH.
Qed.

Lemma callNext_logs a s : logs (snd (callNext a s)) = logs s.
Proof. unfold callNext. by destruct (next a _ _ _) as [[[? ?] ?] ?]. Qed.

Lemma handleError_logs a errorMessage code s :
  logs (snd (handleError a errorMessage code s)) = logs s ++ errorLog a errorMessage s.
Proof.
  destruct (interruptOnError a) eqn:Hi.
  - rewrite handleError_interrupt_eq by done.
    by destruct (http_Error_frame "" code (logged (errorLog a errorMessage s) s)) as [_ ->].
  - rewrite handleError_continue by done. by rewrite callNext_logs.
Qed.

(** The first line [handleError] logs is the error message. *)
Lemma policy_logs a s errorMessage code s1 :
  pipeline a s = handleError a errorMessage code s1 →
  ∃ more, logs (final (ServeHTTP a s)) = logs s1 ++ LogPrintf errorMessage :: more.
Proof.
  intros Hp. unfold final, ServeHTTP, defer_recover. rewrite Hp.
  destruct (handleError a errorMessage code s1) as [[[]|v] s2] eqn:He;
    pose proof (handleError_logs a errorMessage code s1) as Hl;
    rewrite He in Hl; cbn [snd] in *.
  - rewrite Hl. by eexists.
  - rewrite handleError_logs, Hl. unfold errorLog at 2.
    rewrite <- app_assoc. by eexists.
Qed.

(** C4, as amended.  A request that is not a websocket upgrade and whose
    body exceeds the configured maximum (a negative maximum counting as
    0) never reaches the decision service.  With [interruptOnError] the
    gate returns after [http.Error(rw, "", 413)]: on a writer nothing was
    sent on, status 413 and a body made of the end of line that follows
    the empty message.  Without it the upstream handler is invoked. *)
Theorem oversized_body_policy a s :
  isWebsocket (req s) = false →
  Z.max 0 (maxBodySize a) < Z.of_nat (length (pending (Body (req s)))) →
  contacted (final (ServeHTTP a s)) = contacted s ∧
  (interruptOnError a = true →
     completion (ServeHTTP a s) = Ret tt ∧
     calls (final (ServeHTTP a s)) = calls s ∧
     rw (final (ServeHTTP a s)) = errorWriter 413 (limitHit (rw s)) ∧
     (RW.fresh (rw s) →
        rwStatus (rw (final (ServeHTTP a s))) = Some 413 ∧
        rwBody (rw (final (ServeHTTP a s))) = newline)) ∧
  (interruptOnError a = false →
     ∃ r more,
       calls (final (ServeHTTP a s)) = calls s ++ CallNext (limitHit (rw s)) r :: more ∧
       forallb isCallNext more = true).
Proof.
  intros Hws Hlen.
  pose proof (pipeline_read_error a s _ _ _ _ Hws (ReadAll_overflow _ _ _ Hlen)) as Hp.
  rewrite String.eqb_refl in Hp.
  split; [|split].
  - destruct (interruptOnError a) eqn:Hi.
    + by rewrite (policy_interrupt _ _ _ _ _ Hp Hi eq_refl).
    + destruct (policy_continue _ _ _ _ _ Hp Hi) as (more & Hc & Hmore).
      by refine (contacted_app s (CallNext _ _ :: more) _ Hc _).
  - intros Hi. rewrite (policy_interrupt _ _ _ _ _ Hp Hi eq_refl).
    repeat apply conj; try done.
    intros [Hst Hbody]. by apply errorWriter_fresh.
  - intros Hi. destruct (policy_continue _ _ _ _ _ Hp Hi) as (more & Hc & Hmore).
    by eexists _, more.
Qed.

(** C6, as amended.  When the outbound request cannot be built or
    [httpClient.Do] fails, nothing of a verdict is relayed.  With
    [interruptOnError] the gate returns after [http.Error(rw, "", 502)]
    without invoking the upstream handler: on a writer nothing was sent
    on, status 502 and a body made of the end of line that follows the
    empty message.  Without it the upstream handler is invoked with the
    untouched writer and the request over the captured body. *)
Theorem transport_failure_policy a s body rest e :
  isWebsocket (req s) = false →
  ReadAll_MaxBytesReader (rw s) (maxBodySize a) (Body (req s)) = (body, None, rest, rw s) →
  NewRequest_error (Method (req s)) (modSecurityUrl a +:+ RequestURI (req s)) = Some e ∨
  (NewRequest_error (Method (req s)) (modSecurityUrl a +:+ RequestURI (req s)) = None ∧
   ∃ w, httpClient_Do (world s) (outbound a (req s) body) = (w, DoError e)) →
  (interruptOnError a = true →
     completion (ServeHTTP a s) = Ret tt ∧
     upstreamInvoked (final (ServeHTTP a s)) = upstreamInvoked s ∧
     rw (final (ServeHTTP a s)) = errorWriter 502 (rw s) ∧
     (RW.fresh (rw s) →
        rwStatus (rw (final (ServeHTTP a s))) = Some 502 ∧
        rwBody (rw (final (ServeHTTP a s))) = newline)) ∧
  (interruptOnError a = false →
     ∃ pre more,
       calls (final (ServeHTTP a s)) =
         calls s ++ pre ++ CallNext (rw s) (replayable (req s) body) :: more ∧
       forallb isCallDo pre = true).
Proof.
  intros Hws Hread [Hnew|[Hnew [w Hdo]]].
  - pose proof (pipeline_request_error a s body rest e Hws Hread Hnew) as Hp.
    split.
    + intros Hi. rewrite (policy_interrupt _ _ _ _ _ Hp Hi eq_refl).
      repeat apply conj; try done.
      intros Hfresh. by apply errorWriter_fresh.
    + intros Hi. destruct (policy_continue _ _ _ _ _ Hp Hi) as (more & Hc & _).
      by exists [], more.
  - pose proof (pipeline_transport_error a s body rest w e Hws Hread Hnew Hdo) as Hp.
    split.
    + intros Hi. rewrite (policy_interrupt _ _ _ _ _ Hp Hi eq_refl).
      repeat apply conj; try done.
      * by apply (upstreamInvoked_app s [CallDo (outbound a (req s) body)]).
      * intros Hfresh. by apply errorWriter_fresh.
    + intros Hi. destruct (policy_continue _ _ _ _ _ Hp Hi) as (more & Hc & _).
      exists [CallDo (outbound a (req s) body)], more. split; [|done].
      rewrite Hc. cbn. by rewrite <- app_assoc.
Qed.

(** C7, as amended.  A panic raised in the pipeline below the deferred
    function is recovered there and handed to [handleError] with status
    502.  With [interruptOnError] the gate returns normally after
    [http.Error(rw, "", 502)]: the status is 502 when none had been
    written, and the end of line that follows the empty message is added
    to the body.  Without it the upstream handler is invoked from the
    deferred function, and [ServeHTTP] ends the way that invocation
    ends. *)
Theorem panic_policy a s v s1 :
  pipeline a s = (Panic v, s1) →
  ServeHTTP a s = handleError a ("Panic. Error: " +:+ v) StatusBadGateway s1 ∧
  (interruptOnError a = true →
     completion (ServeHTTP a s) = Ret tt ∧
     calls (final (ServeHTTP a s)) = calls s1 ∧
     rw (final (ServeHTTP a s)) = errorWriter 502 (rw s1) ∧
     (rwStatus (rw s1) = None → rwStatus (rw (final (ServeHTTP a s))) = Some 502) ∧
     rwBody (rw (final (ServeHTTP a s))) = rwBody (rw s1) ++ newline) ∧
  (interruptOnError a = false →
     calls (final (ServeHTTP a s)) = calls s1 ++ [CallNext (rw s1) (req s1)] ∧
     completion (ServeHTTP a s) = snd (next a (world s1) (rw s1) (req s1))).
Proof.
  intros Hp.
  assert (ServeHTTP a s = handleError a ("Panic. Error: " +:+ v) StatusBadGateway s1)
    as Hserve.
  { unfold ServeHTTP, defer_recover. by rewrite Hp. }
  split; [done|]. rewrite Hserve. split; intros Hi.
  - rewrite handleError_interrupt by done.
    repeat apply conj; try done.
    + intros Hst. cbn [final snd rw withRW]. unfold errorWriter.
      rewrite rwStatus_Write, rwStatus_setStatus. cbn. by rewrite Hst.
    + cbn [final snd rw withRW]. unfold errorWriter.
      by rewrite rwBody_Write, rwBody_setStatus.
  - split.
    + unfold final. by rewrite handleError_calls, Hi.
    + rewrite handleError_continue by done. unfold completion, callNext. cbn.
      by destruct (next a _ _ _) as [[[? ?] ?] ?].
Qed.

(** C9. A body-read error is told apart by its message alone: the message
    of the size error is logged as a reached limit and answered with 413
    in interrupt mode; every other message is logged as a failed read and
    answered with 502.  Within the limit the message is the one of the
    stream's own read error, whatever it says. *)
Theorem read_error_routing a s body e rest w1 :
  isWebsocket (req s) = false →
  ReadAll_MaxBytesReader (rw s) (maxBodySize a) (Body (req s)) = (body, Some e, rest, w1) →
  (e = "http: request body too large" →
     (∃ more, logs (final (ServeHTTP a s)) =
              logs s ++ LogPrintf ("body max limit reached: " +:+ e) :: more) ∧
     (interruptOnError a = true → RW.fresh (rw s) →
        rwStatus (rw (final (ServeHTTP a s))) = Some 413)) ∧
  (e ≠ "http: request body too large" →
     (∃ more, logs (final (ServeHTTP a s)) =
              logs s ++ LogPrintf ("fail to read incoming request: " +:+ e) :: more) ∧
     (interruptOnError a = true → RW.fresh (rw s) →
        rwStatus (rw (final (ServeHTTP a s))) = Some 502)) ∧
  (Z.of_nat (length (pending (Body (req s)))) ≤ Z.max 0 (maxBodySize a) →
     ending (Body (req s)) = ReadError e) ∧
  (Z.max 0 (maxBodySize a) < Z.of_nat (length (pending (Body (req s)))) →
     e = "http: request body too large").
Proof.
  intros Hws Hread.
  pose proof (pipeline_read_error a s body e rest w1 Hws Hread) as Hp.
  split; [|split; [|split]].
  - intros ->. change (String.eqb _ errBodyTooLarge) with true in Hp.
    split; [exact (policy_logs _ _ _ _ _ Hp)|].
    intros Hi Hfresh. rewrite (policy_interrupt _ _ _ _ _ Hp Hi eq_refl).
    by apply errorWriter_fresh, (ReadAll_fresh _ _ _ _ _ _ _ Hread).
  - intros Hne. apply String.eqb_neq in Hne. unfold errBodyTooLarge in Hp.
    rewrite Hne in Hp.
    split; [exact (policy_logs _ _ _ _ _ Hp)|].
    intros Hi Hfresh. rewrite (policy_interrupt _ _ _ _ _ Hp Hi eq_refl).
    by apply errorWriter_fresh, (ReadAll_fresh _ _ _ _ _ _ _ Hread).
  - intros Hle. rewrite ReadAll_fits in Hread by done.
    destruct (ending (Body (req s))); congruence.
  - intros Hlt. rewrite ReadAll_overflow in Hread by done.
    unfold errBodyTooLarge in Hread. congruence.
Qed.

(** C10. In continue mode a request whose capture failed reaches the
    upstream handler with the stream as the failed read left it:
    [req.Body] is not reassigned.  After an oversized body the stream is
    one byte past the limit; after a read error within the limit it has
    nothing left; in both cases less than the original whenever the
    original had any byte. *)
Theorem failed_capture_body_consumed a s body e rest w1 :
  isWebsocket (req s) = false →
  interruptOnError a = false →
  ReadAll_MaxBytesReader (rw s) (maxBodySize a) (Body (req s)) = (body, Some e, rest, w1) →
  (∃ more,
     calls (final (ServeHTTP a s)) =
     calls s ++ CallNext w1 (setBody (req s) rest) :: more) ∧
  (Z.max 0 (maxBodySize a) < Z.of_nat (length (pending (Body (req s)))) →
     pending rest =
     drop (Z.to_nat (Z.max 0 (maxBodySize a)) + 1) (pending (Body (req s)))) ∧
  (Z.of_nat (length (pending (Body (req s)))) ≤ Z.max 0 (maxBodySize a) →
     pending rest = []) ∧
  (pending (Body (req s)) ≠ [] →
     (length (pending rest) < length (pending (Body (req s))))%nat).
Proof.
  intros Hws Hi Hread.
  pose proof (pipeline_read_error a s body e rest w1 Hws Hread) as Hp.
  split; [|split; [|split]].
  - destruct (String.eqb e errBodyTooLarge);
      destruct (policy_continue _ _ _ _ _ Hp Hi) as (more & Hc & _);
      by exists more.
  - intros Hlt. rewrite ReadAll_overflow in Hread by done. by inversion Hread.
  - intros Hle. rewrite ReadAll_fits in Hread by done. by inversion Hread.
  - intros Hne.
    assert (0 < length (pending (Body (req s))))%nat as Hpos.
    { destruct (pending (Body (req s))); [done|cbn; lia]. }
    destruct (Z_le_gt_dec (Z.of_nat (length (pending (Body (req s)))))
                          (Z.max 0 (maxBodySize a))) as [Hle|Hgt].
    + rewrite ReadAll_fits in Hread by done. inversion Hread. by cbn.
    + rewrite ReadAll_overflow in Hread by lia. inversion Hread. cbn.
      rewrite length_drop. lia.
Qed.

End ErrorPolicy.

(** ** The upgrade detector and the constructor *)

Section Entry.

Context `{Environment}.

Implicit Types (a : Modsecurity) (s : State).

(** [isWebsocket] looks for the exact value under the key [Upgrade]. *)
Lemma isWebsocket_spec (r : Request) :
  isWebsocket r = true ↔
  ∃ vv, ReqHeader r !! "Upgrade" = Some vv ∧ "websocket" ∈ vv.
Proof.
  unfold isWebsocket. rewrite existsb_exists. split.
  - intros (x & Hin & Hx). apply String.eqb_eq in Hx as ->.
    destruct (ReqHeader r !! "Upgrade") as [vv|]; [|done].
    exists vv. split; [done|]. by apply list_elem_of_In.
  - intros (vv & -> & Hin). exists "websocket". split; [|done].
    by apply list_elem_of_In.
Qed.

(** Once past the upgrade detector, the capture and the construction of
    the outbound request, the decision service is the first to be
    called, with the captured body. *)
Lemma pipeline_contacts a s body rest :
  isWebsocket (req s) = false →
  ReadAll_MaxBytesReader (rw s) (maxBodySize a) (Body (req s)) = (body, None, rest, rw s) →
  NewRequest_error (Method (req s)) (modSecurityUrl a +:+ RequestURI (req s)) = None →
  ∃ more, calls (snd (pipeline a s)) = calls s ++ CallDo (outbound a (req s) body) :: more.
Proof.
  intros Hws Hread Hnew.
  destruct (httpClient_Do (world s) (outbound a (req s) body)) as [w [resp|e|v]] eqn:Hdo.
  - pose proof (pipeline_verdict a s body rest w resp Hws Hread Hnew Hdo) as Hp.
    cbv zeta in Hp. rewrite Hp.
    repeat match goal with |- context [if ?b then _ else _] => destruct b end;
      rewrite ?callNext_calls, ?forwardResponse_calls; cbn;
      rewrite <- ?app_assoc; by eexists.
  - rewrite (pipeline_transport_error a s body rest w e Hws Hread Hnew Hdo).
    rewrite handleError_calls. cbn. rewrite <- app_assoc. by eexists.
  - rewrite (pipeline_transport_panic a s body rest w v Hws Hread Hnew Hdo).
    by eexists.
Qed.

(** C5. A request with the value [websocket] under [Upgrade] goes to the
    upstream handler as it came, body unread, and the decision service is
    not contacted; any other request is inspected: once its body is
    captured and the outbound request built, the decision service is
    called with it before anything else. *)
Theorem websocket_bypass a s :
  ((∃ vv, ReqHeader (req s) !! "Upgrade" = Some vv ∧ "websocket" ∈ vv) →
     (∃ more,
        calls (final (ServeHTTP a s)) = calls s ++ CallNext (rw s) (req s) :: more ∧
        forallb isCallNext more = true) ∧
     contacted (final (ServeHTTP a s)) = contacted s) ∧
  ((∀ vv, ReqHeader (req s) !! "Upgrade" = Some vv → "websocket" ∉ vv) →
     ∀ body rest,
       ReadAll_MaxBytesReader (rw s) (maxBodySize a) (Body (req s)) = (body, None, rest, rw s) →
       NewRequest_error (Method (req s)) (modSecurityUrl a +:+ RequestURI (req s)) = None →
       ∃ more,
         calls (final (ServeHTTP a s)) =
         calls s ++ CallDo (outbound a (req s) body) :: more).
Proof.
  split.
  - intros Hws. apply isWebsocket_spec in Hws.
    destruct (ServeHTTP_calls a s) as (more & Hc & Hmore).
    rewrite (pipeline_websocket a s Hws), callNext_calls in Hc.
    assert (calls (final (ServeHTTP a s)) = calls s ++ CallNext (rw s) (req s) :: more)
      as Hcalls by (unfold final; by rewrite Hc, <- app_assoc).
    split; [by exists more|].
    by refine (contacted_app s (CallNext _ _ :: more) _ Hcalls _).
  - intros Hno body rest Hread Hnew.
    assert (isWebsocket (req s) = false) as Hws.
    { apply not_true_is_false. intros Hw. apply isWebsocket_spec in Hw.
      destruct Hw as (vv & Hvv & Hin). by apply (Hno vv). }
    destruct (pipeline_contacts a s body rest Hws Hread Hnew) as [more0 Hp].
    destruct (ServeHTTP_calls a s) as (more & Hc & _).
    exists (more0 ++ more). unfold final. rewrite Hc, Hp.
    by rewrite <- app_assoc.
Qed.

(** C8. [New] fails on an empty decision-service URL, with an error and
    no gate; on any other URL it returns a gate that holds the supplied
    configuration, handler and name, and no error. *)
Theorem New_requires_url (h : Handler) (config : Config) (nm : string) :
  (String.length (ModSecurityUrl config) = 0%nat →
     New h config nm = (None, Some "modSecurityUrl cannot be empty")) ∧
  (String.length (ModSecurityUrl config) ≠ 0%nat →
     ∃ g, New h config nm = (Some g, None) ∧
          modSecurityUrl g = ModSecurityUrl config ∧
          maxBodySize g = MaxBodySize config ∧
          interruptOnError g = InterruptOnError config ∧
          ignore500Error g = Ignore500Error config ∧
          next g = h ∧
          name g = nm).
Proof.
  unfold New. split; intros Hlen.
  - by rewrite Hlen.
  - apply Nat.eqb_neq in Hlen. rewrite Hlen. by eexists.
Qed.

End Entry.

(** ** The calls of one invocation *)

Section Traces.

Context `{Environment}.

Implicit Types (a : Modsecurity) (s : State).

(** A read without error leaves the writer alone, took every byte of the
    stream, and the stream ended well within the limit. *)
Lemma ReadAll_ok_inv (w : ResponseWriter) n (b : Stream) body rest w1 :
  ReadAll_MaxBytesReader w n b = (body, None, rest, w1) →
  w1 = w ∧ body = pending b ∧ ending b = EOF ∧
  Z.of_nat (length (pending b)) ≤ Z.max 0 n.
Proof.
  unfold ReadAll_MaxBytesReader. intros Hread.
  destruct (Z.of_nat (length (pending b)) <=? Z.max 0 n) eqn:Hle; [|done].
  inversion Hread. destruct (ending b); [|done].
  repeat split. lia.
Qed.

(** Reading writes neither a status nor a byte. *)
Lemma ReadAll_writer (w : ResponseWriter) n (b : Stream) body err rest w1 :
  ReadAll_MaxBytesReader w n b = (body, err, rest, w1) →
  rwStatus w1 = rwStatus w ∧ rwBody w1 = rwBody w.
Proof.
  unfold ReadAll_MaxBytesReader. intros Hread.
  by destruct (_ <=? _); inversion Hread.
Qed.

(** When [forwardResponse] panics on the state the pipeline gives it, the
    request is the replayable one and nothing was sent on the writer. *)
Lemma forwardResponse_handover s body resp s0 v s1 :
  rw s0 = rw s → req s0 = replayable (req s) body →
  forwardResponse resp s0 = (Panic v, s1) →
  handedOver s (CallNext (rw s1) (req s1)).
Proof.
  intros Hrw Hreq Hpanic.
  destruct (forwardResponse_panics _ _ _ _ Hpanic) as (-> & _ & _).
  eexists _, _. split; [done|]. cbn. rewrite Hreq, Hrw. by repeat split.
Qed.

(** The calls of the pipeline: at most one call of the decision service,
    then at most one call of the upstream handler; and when the pipeline
    panics without having called the upstream handler, the request line,
    the headers and what was sent on the writer are as on entry. *)
Lemma pipeline_trace a s :
  ∃ pre post,
    calls (snd (pipeline a s)) = calls s ++ pre ++ post ∧
    (pre = [] ∨ ∃ c, pre = [c] ∧ verdictCall a s c) ∧
    (post = [] ∨ ∃ c, post = [c] ∧ handedOver s c) ∧
    (post = [] → ∀ v s1, pipeline a s = (Panic v, s1) →
       handedOver s (CallNext (rw s1) (req s1))).
Proof.
  destruct (isWebsocket (req s)) eqn:Hws.
  { rewrite (pipeline_websocket a s Hws), callNext_calls.
    exists [], [CallNext (rw s) (req s)]. split; [done|]. split; [by left|].
    split; [|done]. right. eexists. split; [done|]. by eexists _, _. }
  destruct (ReadAll_MaxBytesReader (rw s) (maxBodySize a) (Body (req s)))
    as [[[body [e|]] rest] w1] eqn:Hread.
  { pose proof (pipeline_read_error a s body e rest w1 Hws Hread) as Hp.
    destruct (ReadAll_writer _ _ _ _ _ _ _ Hread) as [Hst Hbody].
    exists [].
    exists (if interruptOnError a then [] else [CallNext w1 (setBody (req s) rest)]).
    split; [|split; [by left|split]].
    - rewrite Hp. by destruct (String.eqb e errBodyTooLarge); rewrite handleError_calls.
    - destruct (interruptOnError a); [by left|].
      right. eexists. split; [done|]. by eexists _, _.
    - destruct (interruptOnError a) eqn:Hi; [|done]. intros _ v s1 Hpanic.
      rewrite Hpanic in Hp.
      by destruct (String.eqb e errBodyTooLarge);
        rewrite handleError_interrupt in Hp by done. }
  destruct (ReadAll_ok_inv _ _ _ _ _ _ Hread) as (-> & _).
  destruct (NewRequest_error (Method (req s)) (modSecurityUrl a +:+ RequestURI (req s)))
    as [e|] eqn:Hnew.
  { pose proof (pipeline_request_error a s body rest e Hws Hread Hnew) as Hp.
    exists [].
    exists (if interruptOnError a then []
            else [CallNext (rw s) (replayable (req s) body)]).
    split; [by rewrite Hp, handleError_calls|]. split; [by left|]. split.
    - destruct (interruptOnError a); [by left|].
      right. eexists. split; [done|]. by eexists _, _.
    - destruct (interruptOnError a) eqn:Hi; [|done]. intros _ v s1 Hpanic.
      rewrite Hpanic in Hp. by rewrite handleError_interrupt in Hp by done. }
  assert (verdictCall a s (CallDo (outbound a (req s) body))) as Hcall.
  { split; [done|]. by exists body, rest. }
  assert (handedOver s (CallNext (rw s) (replayable (req s) body))) as Hnext.
  { by eexists _, _. }
  exists [CallDo (outbound a (req s) body)].
  destruct (httpClient_Do (world s) (outbound a (req s) body)) as [w [resp|e|v]] eqn:Hdo.
  - pose proof (pipeline_verdict a s body rest w resp Hws Hread Hnew Hdo) as Hp.
    cbv zeta in Hp. rewrite Hp.
    destruct (400 <=? StatusCode resp);
      [destruct (500 <=? StatusCode resp); [destruct (ignore500Error a)|]|].
    all: rewrite ?callNext_calls, ?forwardResponse_calls;
      cbn [snd calls withRW logged afterDo rw req afterCapture withReqBody].
    all: first
      [ exists [CallNext (rw s) (replayable (req s) body)];
        split; [by rewrite <- app_assoc|];
        split; [right; by eexists|]; split; [right; by eexists | done]
      | exists []; split; [by rewrite app_nil_r|];
        split; [right; by eexists|]; split; [by left|];
        intros _ v s1 Hpanic;
        by refine (forwardResponse_handover s body resp _ v s1 _ _ Hpanic) ].
  - pose proof (pipeline_transport_error a s body rest w e Hws Hread Hnew Hdo) as Hp.
    exists (if interruptOnError a then []
            else [CallNext (rw s) (replayable (req s) body)]).
    split; [|split; [right; by eexists|split]].
    + rewrite Hp, handleError_calls.
      cbn [calls rw req afterDo afterCapture withReqBody]. by rewrite <- app_assoc.
    + destruct (interruptOnError a); [by left | right; by eexists].
    + destruct (interruptOnError a) eqn:Hi; [|done]. intros _ v s1 Hpanic.
      rewrite Hpanic in Hp. by rewrite handleError_interrupt in Hp by done.
  - pose proof (pipeline_transport_panic a s body rest w v Hws Hread Hnew Hdo) as Hp.
    exists []. split; [|split; [right; by eexists|split; [by left|]]].
    + rewrite Hp. cbn [snd calls afterDo afterCapture withReqBody].
      by rewrite app_nil_r.
    + intros _ v' s1 Hpanic. rewrite Hpanic in Hp. inversion Hp; subst. exact Hnext.
Qed.

(** What the deferred function adds: nothing, or in continue mode the
    upstream call of the error policy, made where the pipeline panicked. *)
Lemma ServeHTTP_trace a s :
  ∃ more,
    calls (final (ServeHTTP a s)) = calls (snd (pipeline a s)) ++ more ∧
    (more = [] ∨
     interruptOnError a = false ∧
     ∃ v s1, pipeline a s = (Panic v, s1) ∧ more = [CallNext (rw s1) (req s1)]).
Proof.
  unfold final, ServeHTTP, defer_recover.
  destruct (pipeline a s) as [[[]|v] s1] eqn:Hp; cbn [snd].
  - exists []. split; [by rewrite app_nil_r | by left].
  - rewrite handleError_calls. eexists. split; [done|].
    destruct (interruptOnError a); [by left|].
    right. split; [done|]. by exists v, s1.
Qed.

(** The calls of one invocation, put together. *)
Lemma ServeHTTP_shape a s cs :
  calls (final (ServeHTTP a s)) = calls s ++ cs →
  ∃ pre post more,
    cs = pre ++ post ++ more ∧
    (pre = [] ∨ ∃ c, pre = [c] ∧ verdictCall a s c) ∧
    (post = [] ∨ ∃ c, post = [c] ∧ handedOver s c) ∧
    (more = [] ∨ interruptOnError a = false ∧ ∃ w r, more = [CallNext w r]).
Proof.
  intros Hcs.
  destruct (pipeline_trace a s) as (pre & post & Hp & Hpre & Hpost & _).
  destruct (ServeHTTP_trace a s) as (more & Hs & Hmore).
  exists pre, post, more. split; [|split; [done|split; [done|]]].
  - rewrite Hs, Hp, <- !app_assoc in Hcs. by apply app_inv_head in Hcs.
  - destruct Hmore as [->|(Hi & v & s1 & _ & ->)]; [by left|].
    right. split; [done|]. by eexists _, _.
Qed.

(** A call of the decision service found among the calls of an invocation
    is the one the pipeline makes after a successful capture. *)
Lemma contact_inv a s cs p :
  calls (final (ServeHTTP a s)) = calls s ++ cs →
  CallDo p ∈ cs →
  verdictCall a s (CallDo p).
Proof.
  intros Hcs Hin.
  destruct (ServeHTTP_shape a s cs Hcs) as (pre & post & more & -> & Hpre & Hpost & Hmore).
  assert (CallDo p ∈ pre) as Hp.
  { apply elem_of_app in Hin as [Hin|Hin]; [done|].
    apply elem_of_app in Hin as [Hin|Hin].
    - destruct Hpost as [->|(c & -> & w & r & -> & _)].
      + by apply elem_of_nil in Hin.
      + apply list_elem_of_singleton in Hin. discriminate.
    - destruct Hmore as [->|(_ & w & r & ->)].
      + by apply elem_of_nil in Hin.
      + apply list_elem_of_singleton in Hin. discriminate. }
  destruct Hpre as [->|(c & -> & Hc)].
  { by apply elem_of_nil in Hp. }
  apply list_elem_of_singleton in Hp. by subst c.
Qed.

(** X1. Whatever reaches the decision service mirrors the inbound request:
    its method when it has one, the URL that [http.NewRequest] makes of the
    configured URL followed by the raw request URI, the same header map
    whatever the order of the copy loop, and the whole body, which ended
    without error within the limit.  No upgrade request is ever sent
    there. *)
Theorem decision_request_mirrors a s cs p :
  calls (final (ServeHTTP a s)) = calls s ++ cs →
  CallDo p ∈ cs →
  (Method (req s) ≠ "" → pMethod p = Method (req s)) ∧
  pURL p = NewRequest_URL (modSecurityUrl a +:+ RequestURI (req s)) ∧
  pHeader p = ReqHeader (req s) ∧
  pBody p = pending (Body (req s)) ∧
  ending (Body (req s)) = EOF ∧
  Z.of_nat (length (pBody p)) ≤ Z.max 0 (maxBodySize a) ∧
  isWebsocket (req s) = false.
Proof.
  intros Hcs Hin.
  destruct (contact_inv a s cs p Hcs Hin) as (Hws & body & rest & Hread & Hnew & Hp).
  inversion Hp; subst p.
  destruct (ReadAll_ok_inv _ _ _ _ _ _ Hread) as (_ & -> & Heof & Hlen).
  repeat apply conj; try done.
  - intros Hm. cbn. apply String.eqb_neq in Hm. by rewrite Hm.
  - cbn. apply proxyHeader_copy.
Qed.

(** X2. One invocation calls the decision service at most once, before any
    call of the upstream handler, and calls the upstream handler at most
    once in interrupt mode and at most twice in continue mode. *)
Theorem call_bounds a s cs :
  calls (final (ServeHTTP a s)) = calls s ++ cs →
  (length (List.filter isCallDo cs) ≤ 1)%nat ∧
  (length (List.filter isCallNext cs) ≤ if interruptOnError a then 1 else 2)%nat ∧
  (∀ p, CallDo p ∈ cs → head cs = Some (CallDo p)).
Proof.
  intros Hcs.
  destruct (ServeHTTP_shape a s cs Hcs) as (pre & post & more & -> & Hpre & Hpost & Hmore).
  destruct Hpre as [->|(c & -> & _ & body & rest & _ & _ & ->)];
    destruct Hpost as [->|(c' & -> & w & r & -> & _)];
    destruct Hmore as [->|(Hi & w' & r' & ->)];
    try rewrite Hi; cbn; (split; [|split]); try lia;
    try (destruct (interruptOnError a); lia).
  all: intros p Hin;
    repeat (apply elem_of_cons in Hin as [Hin|Hin]; [try discriminate|]);
    try (by apply elem_of_nil in Hin); by rewrite Hin.
Qed.

(** X3. In interrupt mode [ServeHTTP] always returns: no panic of the
    upstream handler or of the client leaves it. *)
Theorem interrupt_never_panics a s :
  interruptOnError a = true → completion (ServeHTTP a s) = Ret tt.
Proof.
  intros Hi. unfold completion, ServeHTTP, defer_recover.
  destruct (pipeline a s) as [[[]|v] s1]; [done|].
  by rewrite handleError_interrupt.
Qed.

(** X4. A panic leaves [ServeHTTP] only in continue mode, only after the
    pipeline itself panicked, and it is the panic of the upstream call made
    by the deferred function, the last call of the invocation. *)
Theorem escaping_panic_origin a s v :
  completion (ServeHTTP a s) = Panic v →
  interruptOnError a = false ∧
  ∃ v0 s1,
    pipeline a s = (Panic v0, s1) ∧
    snd (next a (world s1) (rw s1) (req s1)) = Panic v ∧
    calls (final (ServeHTTP a s)) = calls s1 ++ [CallNext (rw s1) (req s1)].
Proof.
  unfold completion, final, ServeHTTP, defer_recover.
  destruct (pipeline a s) as [[[]|v0] s1] eqn:Hp; [done|].
  destruct (interruptOnError a) eqn:Hi.
  { by rewrite handleError_interrupt. }
  rewrite handleError_continue by done. intros Hpanic.
  split; [done|]. exists v0, s1. split; [done|].
  rewrite callNext_logged. split; [|done].
  unfold callNext in Hpanic. cbn in Hpanic.
  by destruct (next a _ _ _) as [[[? ?] ?] ?].
Qed.

End Traces.

(** ** What the client and the upstream see *)

Section Outcomes.

Context `{Environment}.

Implicit Types (a : Modsecurity) (s : State).

(** The deferred function only adds lines to the log of the pipeline. *)
Lemma ServeHTTP_logs a s :
  ∃ more, logs (final (ServeHTTP a s)) = logs (snd (pipeline a s)) ++ more.
Proof.
  unfold final, ServeHTTP, defer_recover.
  destruct (pipeline a s) as [[[]|v] s1]; cbn [snd].
  - exists []. by rewrite app_nil_r.
  - rewrite handleError_logs. by eexists.
Qed.

(** X5. A verdict of 500 or more is logged, request then response, whether
    it is relayed or passed over; a verdict from 400 to 499 is relayed
    without a line in the log. *)
Theorem server_error_logged a s body rest w resp :
  isWebsocket (req s) = false →
  ReadAll_MaxBytesReader (rw s) (maxBodySize a) (Body (req s)) = (body, None, rest, rw s) →
  NewRequest_error (Method (req s)) (modSecurityUrl a +:+ RequestURI (req s)) = None →
  httpClient_Do (world s) (outbound a (req s) body) = (w, DoResponse resp) →
  (500 ≤ StatusCode resp →
     ∃ more,
       logs (final (ServeHTTP a s)) =
       logs s ++ LogRequest "OWASP 500 error. Request " (replayable (req s) body)
              :: LogResponse "OWASP 500 error. Response " resp :: more) ∧
  (400 ≤ StatusCode resp < 500 → logs (final (ServeHTTP a s)) = logs s).
Proof.
  intros Hws Hread Hnew Hdo.
  pose proof (pipeline_verdict a s body rest w resp Hws Hread Hnew Hdo) as Hp.
  cbv zeta in Hp. split.
  - intros Hge.
    assert ((400 <=? StatusCode resp) = true) as H4 by lia.
    assert ((500 <=? StatusCode resp) = true) as H5 by lia.
    rewrite H4, H5 in Hp.
    destruct (ServeHTTP_logs a s) as [more Hl]. exists more.
    rewrite Hl, Hp.
    destruct (ignore500Error a);
      rewrite ?callNext_logs, ?forwardResponse_logs; cbn; by rewrite <- app_assoc.
  - intros [Hge Hlt].
    assert ((400 <=? StatusCode resp) = true) as H4 by lia.
    assert ((500 <=? StatusCode resp) = false) as H5 by lia.
    rewrite H4, H5, forwardResponse_run in Hp
      by (left; apply validCode_relay; lia).
    by rewrite (ServeHTTP_returns _ _ _ Hp).
Qed.

(** The run of [callNext] when the handler returns. *)
Lemma callNext_returns a s w' rw' req' :
  next a (world s) (rw s) (req s) = (w', rw', req', Ret tt) →
  callNext a s =
  (Ret tt, {| rw := rw'; req := req'; logs := logs s;
              calls := calls s ++ [CallNext (rw s) (req s)]; world := w' |}).
Proof. intros Hn. unfold callNext. by rewrite Hn. Qed.

(** The run of [callNext] when the handler panics. *)
Lemma callNext_panics a s w' rw' req' v :
  next a (world s) (rw s) (req s) = (w', rw', req', Panic v) →
  callNext a s =
  (Panic v, {| rw := rw'; req := req'; logs := logs s;
               calls := calls s ++ [CallNext (rw s) (req s)]; world := w' |}).
Proof. intros Hn. unfold callNext. by rewrite Hn. Qed.

(** The pipeline on the Allow outcome is the call of the upstream handler. *)
Lemma pipeline_allowed a s body rest w resp :
  isWebsocket (req s) = false →
  ReadAll_MaxBytesReader (rw s) (maxBodySize a) (Body (req s)) = (body, None, rest, rw s) →
  NewRequest_error (Method (req s)) (modSecurityUrl a +:+ RequestURI (req s)) = None →
  httpClient_Do (world s) (outbound a (req s) body) = (w, DoResponse resp) →
  StatusCode resp < 400 ∨ 500 ≤ StatusCode resp ∧ ignore500Error a = true →
  ∃ es,
    pipeline a s =
    callNext a (logged es (afterDo (outbound a (req s) body) w (afterCapture body s))) ∧
    (StatusCode resp < 400 → es = []).
Proof.
  intros Hws Hread Hnew Hdo Hallow.
  pose proof (pipeline_verdict a s body rest w resp Hws Hread Hnew Hdo) as Hp.
  cbv zeta in Hp.
  destruct Hallow as [Hlt|[Hge Hig]].
  - assert ((400 <=? StatusCode resp) = false) as H4 by lia.
    rewrite H4 in Hp. exists []. split; [|done]. rewrite Hp.
    unfold callNext, logged. cbn. by rewrite app_nil_r.
  - assert ((400 <=? StatusCode resp) = true) as H4 by lia.
    assert ((500 <=? StatusCode resp) = true) as H5 by lia.
    rewrite H4, H5, Hig in Hp. eexists. split; [exact Hp|lia].
Qed.

(** X6. On the Allow outcome, when the upstream handler returns, the gate
    adds nothing: the writer, the request and the world are as the handler
    left them, and the calls are the decision service then the handler. *)
Theorem allow_transparent a s body rest w resp w' rw' req' :
  isWebsocket (req s) = false →
  ReadAll_MaxBytesReader (rw s) (maxBodySize a) (Body (req s)) = (body, None, rest, rw s) →
  NewRequest_error (Method (req s)) (modSecurityUrl a +:+ RequestURI (req s)) = None →
  httpClient_Do (world s) (outbound a (req s) body) = (w, DoResponse resp) →
  StatusCode resp < 400 ∨ 500 ≤ StatusCode resp ∧ ignore500Error a = true →
  next a w (rw s) (replayable (req s) body) = (w', rw', req', Ret tt) →
  completion (ServeHTTP a s) = Ret tt ∧
  rw (final (ServeHTTP a s)) = rw' ∧
  req (final (ServeHTTP a s)) = req' ∧
  world (final (ServeHTTP a s)) = w' ∧
  calls (final (ServeHTTP a s)) =
    calls s ++ [CallDo (outbound a (req s) body);
                CallNext (rw s) (replayable (req s) body)].
Proof.
  intros Hws Hread Hnew Hdo Hallow Hnext.
  destruct (pipeline_allowed a s body rest w resp Hws Hread Hnew Hdo Hallow)
    as (es & Hp & _).
  rewrite (callNext_returns _ _ w' rw' req') in Hp by exact Hnext.
  rewrite (ServeHTTP_returns _ _ _ Hp). cbn.
  repeat split. by rewrite <- app_assoc.
Qed.

(** X7. An upgrade request whose handler returns leaves no trace of the
    gate but the call itself: no line in the log, nothing written. *)
Theorem websocket_transparent a s w' rw' req' :
  isWebsocket (req s) = true →
  next a (world s) (rw s) (req s) = (w', rw', req', Ret tt) →
  ServeHTTP a s =
  (Ret tt, {| rw := rw'; req := req'; logs := logs s;
              calls := calls s ++ [CallNext (rw s) (req s)]; world := w' |}).
Proof.
  intros Hws Hnext. apply ServeHTTP_returns.
  rewrite pipeline_websocket by done. by apply callNext_returns.
Qed.

(** X8. In continue mode, when the decision service cannot be reached and
    the upstream handler returns, the client gets exactly what the handler
    wrote on the untouched writer; the gate only logged its three lines. *)
Theorem fail_open_transparent a s body rest w e w' rw' req' :
  isWebsocket (req s) = false →
  ReadAll_MaxBytesReader (rw s) (maxBodySize a) (Body (req s)) = (body, None, rest, rw s) →
  NewRequest_error (Method (req s)) (modSecurityUrl a +:+ RequestURI (req s)) = None →
  httpClient_Do (world s) (outbound a (req s) body) = (w, DoError e) →
  interruptOnError a = false →
  next a w (rw s) (replayable (req s) body) = (w', rw', req', Ret tt) →
  completion (ServeHTTP a s) = Ret tt ∧
  rw (final (ServeHTTP a s)) = rw' ∧
  req (final (ServeHTTP a s)) = req' ∧
  length (logs (final (ServeHTTP a s))) = (length (logs s) + 3)%nat ∧
  calls (final (ServeHTTP a s)) =
    calls s ++ [CallDo (outbound a (req s) body);
                CallNext (rw s) (replayable (req s) body)].
Proof.
  intros Hws Hread Hnew Hdo Hi Hnext.
  pose proof (pipeline_transport_error a s body rest w e Hws Hread Hnew Hdo) as Hp.
  rewrite handleError_continue in Hp by done.
  rewrite (callNext_returns _ _ w' rw' req') in Hp by exact Hnext.
  rewrite (ServeHTTP_returns _ _ _ Hp). cbn.
  repeat split.
  - rewrite length_app. cbn. lia.
  - by rewrite <- app_assoc.
Qed.

(** X9. In continue mode an upstream handler that panics on an allowed
    request is invoked a second time by the deferred function, with the
    writer and the request as its first run left them; [ServeHTTP] ends as
    that second run ends. *)
Theorem double_invocation a s body rest w resp w1 rw1 req1 v :
  isWebsocket (req s) = false →
  ReadAll_MaxBytesReader (rw s) (maxBodySize a) (Body (req s)) = (body, None, rest, rw s) →
  NewRequest_error (Method (req s)) (modSecurityUrl a +:+ RequestURI (req s)) = None →
  httpClient_Do (world s) (outbound a (req s) body) = (w, DoResponse resp) →
  StatusCode resp < 400 →
  interruptOnError a = false →
  next a w (rw s) (replayable (req s) body) = (w1, rw1, req1, Panic v) →
  calls (final (ServeHTTP a s)) =
    calls s ++ [CallDo (outbound a (req s) body);
                CallNext (rw s) (replayable (req s) body);
                CallNext rw1 req1] ∧
  completion (ServeHTTP a s) = snd (next a w1 rw1 req1).
Proof.
  intros Hws Hread Hnew Hdo Hlt Hi Hnext.
  destruct (pipeline_allowed a s body rest w resp Hws Hread Hnew Hdo (or_introl Hlt))
    as (es & Hp & Hes).
  rewrite (Hes Hlt) in Hp.
  rewrite (callNext_panics _ _ w1 rw1 req1 v) in Hp by exact Hnext.
  unfold completion, final, ServeHTTP, defer_recover. rewrite Hp.
  rewrite handleError_continue by done. split.
  - rewrite callNext_logged. cbn. by rewrite <- !app_assoc.
  - unfold callNext. cbn. by destruct (next a w1 rw1 req1) as [[[? ?] ?] ?].
Qed.

(** X10. In interrupt mode, when the upstream handler panics on an allowed
    request after it wrote a status, that status stays: the client does not
    get 502, and what the handler wrote is followed by the end of line of
    [http.Error]. *)
Theorem late_panic_keeps_status a s body rest w resp w1 rw1 req1 v c :
  isWebsocket (req s) = false →
  ReadAll_MaxBytesReader (rw s) (maxBodySize a) (Body (req s)) = (body, None, rest, rw s) →
  NewRequest_error (Method (req s)) (modSecurityUrl a +:+ RequestURI (req s)) = None →
  httpClient_Do (world s) (outbound a (req s) body) = (w, DoResponse resp) →
  StatusCode resp < 400 →
  interruptOnError a = true →
  next a w (rw s) (replayable (req s) body) = (w1, rw1, req1, Panic v) →
  rwStatus rw1 = Some c →
  completion (ServeHTTP a s) = Ret tt ∧
  rwStatus (rw (final (ServeHTTP a s))) = Some c ∧
  rwBody (rw (final (ServeHTTP a s))) = rwBody rw1 ++ newline.
Proof.
  intros Hws Hread Hnew Hdo Hlt Hi Hnext Hst.
  destruct (pipeline_allowed a s body rest w resp Hws Hread Hnew Hdo (or_introl Hlt))
    as (es & Hp & Hes).
  rewrite (Hes Hlt) in Hp.
  rewrite (callNext_panics _ _ w1 rw1 req1 v) in Hp by exact Hnext.
  unfold completion, final, ServeHTTP, defer_recover. rewrite Hp.
  rewrite handleError_interrupt by done. cbn [fst snd rw withRW logged].
  unfold errorWriter. split; [done|]. split.
  - rewrite rwStatus_Write, rwStatus_setStatus. cbn. by rewrite Hst.
  - by rewrite rwBody_Write, rwBody_setStatus.
Qed.

End Outcomes.

(** ** The first upstream call, the relay in general, and the constructor *)

Section Frames.

Context `{Environment}.

Implicit Types (a : Modsecurity) (s : State).

(** [New] on a URL that is not empty. *)
Lemma New_requires_url_aux (h : Handler) (config : Config) (nm : string) :
  ModSecurityUrl config ≠ "" →
  ∃ g, New h config nm = (Some g, None) ∧
       maxBodySize g = MaxBodySize config ∧
       interruptOnError g = InterruptOnError config ∧
       ignore500Error g = Ignore500Error config.
Proof.
  intros Hurl. unfold New.
  destruct (ModSecurityUrl config) as [|c u] eqn:Hu; [done|]. cbn.
  by eexists.
Qed.

(** X11. The first call of the upstream handler in an invocation, whatever
    the path that led to it, gets the inbound method, request URI and
    headers, and a writer on which the gate has sent neither a status nor a
    byte: the gate changes nothing but the body reader. *)
Theorem first_upstream_call a s cs w r :
  calls (final (ServeHTTP a s)) = calls s ++ cs →
  List.find isCallNext cs = Some (CallNext w r) →
  Method r = Method (req s) ∧
  RequestURI r = RequestURI (req s) ∧
  ReqHeader r = ReqHeader (req s) ∧
  rwStatus w = rwStatus (rw s) ∧
  rwBody w = rwBody (rw s).
Proof.
  intros Hcs Hfind.
  destruct (pipeline_trace a s) as (pre & post & Hp & Hpre & Hpost & Hpanic).
  destruct (ServeHTTP_trace a s) as (more & Hs & Hmore).
  rewrite Hs, Hp, <- !app_assoc in Hcs. apply app_inv_head in Hcs. subst cs.
  assert (List.find isCallNext (pre ++ post ++ more) =
          List.find isCallNext (post ++ more)) as Hskip.
  { destruct Hpre as [->|(c & -> & _ & body & rest & _ & _ & ->)]; done. }
  rewrite Hskip in Hfind. clear Hskip.
  assert (handedOver s (CallNext w r)) as (w0 & r0 & Heq & Hfields).
  { destruct Hpost as [->|(c & -> & Hc)].
    - destruct Hmore as [->|(_ & v & s1 & Hpipe & ->)]; [done|].
      cbn in Hfind. inversion Hfind; subst. by apply (Hpanic eq_refl v s1).
    - destruct Hc as (w0 & r0 & -> & Hfields). cbn in Hfind.
      inversion Hfind; subst. by eexists _, _. }
  by inversion Heq; subst.
Qed.

(** Each key after the header loop of [forwardResponse] either keeps its
    entry or holds the last value of one line with that canonical key. *)
Lemma copyHeaders_cases l (dst : Header) c :
  copyHeaders l dst !! c = dst !! c ∨
  ∃ k vv v, (k, vv) ∈ l ∧ last vv = Some v ∧ CanonicalMIMEHeaderKey k = c ∧
            copyHeaders l dst !! c = Some [v].
Proof.
  induction l as [|[k vv] l IH] using rev_ind; [by left|].
  rewrite copyHeaders_snoc.
  destruct (last vv) as [v|] eqn:Hlast.
  - unfold Header_Set.
    destruct (decide (CanonicalMIMEHeaderKey k = c)) as [Heq|Hne].
    + right. exists k, vv, v. rewrite Heq, lookup_insert_eq.
      repeat split; try done. apply elem_of_app. right. apply list_elem_of_here.
    + rewrite lookup_insert_ne by done.
      destruct IH as [IH|(k' & vv' & v' & Hin & Hl & Hc & IH)]; [by left|].
      right. exists k', vv', v'. repeat split; try done.
      apply elem_of_app. by left.
  - destruct IH as [IH|(k' & vv' & v' & Hin & Hl & Hc & IH)]; [by left|].
    right. exists k', vv', v'. repeat split; try done.
    apply elem_of_app. by left.
Qed.

(** X12. Whatever the order in which the header map of the verdict is
    visited, and also when several of its keys share a canonical form,
    every key of the client response after [forwardResponse] either keeps
    the entry it had or holds exactly one value, the last value of a
    verdict line with that canonical key: nothing is appended, nothing is
    removed. *)
Theorem relay_headers_in_general (resp : Response) s c :
  rwHeader (rw (final (forwardResponse resp s))) !! c = rwHeader (rw s) !! c ∨
  ∃ k vv v,
    RespHeader resp !! k = Some vv ∧ last vv = Some v ∧
    CanonicalMIMEHeaderKey k = c ∧
    rwHeader (rw (final (forwardResponse resp s))) !! c = Some [v].
Proof.
  assert (rwHeader (rw (final (forwardResponse resp s))) =
          copyHeaders (range (RespHeader resp)) (rwHeader (rw s))) as ->.
  { apply forwardResponse_frame. }
  destruct (copyHeaders_cases (range (RespHeader resp)) (rwHeader (rw s)) c)
    as [Hkeep|(k & vv & v & Hin & Hl & Hc & Hset)]; [by left|].
  right. exists k, vv, v. by rewrite <- elem_of_range.
Qed.

(** X14. The decision service is contacted exactly when the request is no
    upgrade request, its body ends without error within the limit, and the
    outbound request can be built. *)
Theorem inspected_iff a s cs :
  calls (final (ServeHTTP a s)) = calls s ++ cs →
  (∃ p, CallDo p ∈ cs) ↔
  isWebsocket (req s) = false ∧
  ending (Body (req s)) = EOF ∧
  Z.of_nat (length (pending (Body (req s)))) ≤ Z.max 0 (maxBodySize a) ∧
  NewRequest_error (Method (req s)) (modSecurityUrl a +:+ RequestURI (req s)) = None.
Proof.
  intros Hcs. split.
  - intros [p Hin].
    destruct (contact_inv a s cs p Hcs Hin) as (Hws & body & rest & Hread & Hnew & _).
    by destruct (ReadAll_ok_inv _ _ _ _ _ _ Hread) as (_ & _ & Heof & Hlen).
  - intros (Hws & Heof & Hlen & Hnew).
    assert (ReadAll_MaxBytesReader (rw s) (maxBodySize a) (Body (req s)) =
            (pending (Body (req s)), None, {| pending := []; ending := EOF |}, rw s))
      as Hread.
    { rewrite ReadAll_fits by done. by rewrite Heof. }
    destruct (pipeline_contacts a s _ _ Hws Hread Hnew) as [more0 Hp].
    destruct (ServeHTTP_calls a s) as (more & Hc & _).
    unfold final in Hcs. rewrite Hc, Hp, <- app_assoc in Hcs.
    apply app_inv_head in Hcs. subst cs.
    eexists. apply list_elem_of_here.
Qed.

(** X15. A gate made by [New] asks the decision service at the URL that
    [http.NewRequest] makes of the URL of the configuration followed by the
    raw request URI, and never sends it more bytes than the configured
    maximum (a negative one counting as 0). *)
Theorem New_gate_uses_config (h : Handler) (config : Config) (nm : string) g s cs p :
  New h config nm = (Some g, None) →
  calls (final (ServeHTTP g s)) = calls s ++ cs →
  CallDo p ∈ cs →
  ModSecurityUrl config ≠ "" ∧
  pURL p = NewRequest_URL (ModSecurityUrl config +:+ RequestURI (req s)) ∧
  Z.of_nat (length (pBody p)) ≤ Z.max 0 (MaxBodySize config).
Proof.
  unfold New. intros Hnew Hcs Hin.
  destruct (String.length (ModSecurityUrl config) =? 0)%nat eqn:Hlen; [done|].
  inversion Hnew; subst g. clear Hnew.
  destruct (contact_inv _ s cs p Hcs Hin) as (_ & body & rest & Hread & _ & Hp).
  inversion Hp; subst p.
  destruct (ReadAll_ok_inv _ _ _ _ _ _ Hread) as (_ & -> & _ & Hle).
  split; [|by split].
  intros Hurl. by rewrite Hurl in Hlen.
Qed.

(** X16. [CreateConfig] alone is refused by [New]; a configuration that
    keeps its defaults and names a URL gives a gate that holds 10 MiB as
    the limit of the capture and that, interrupting on error and relaying
    5xx verdicts, never lets a panic out of [ServeHTTP]. *)
Theorem default_configuration (h : Handler) (config : Config) (nm : string) :
  New h CreateConfig nm = (None, Some "modSecurityUrl cannot be empty") ∧
  (ModSecurityUrl config ≠ "" →
   MaxBodySize config = MaxBodySize CreateConfig →
   InterruptOnError config = InterruptOnError CreateConfig →
   Ignore500Error config = Ignore500Error CreateConfig →
   ∃ g, New h config nm = (Some g, None) ∧
        maxBodySize g = 10485760 ∧
        interruptOnError g = true ∧
        ignore500Error g = false ∧
        ∀ s, completion (ServeHTTP g s) = Ret tt).
Proof.
  split; [done|]. intros Hurl Hmax Hint Hign.
  destruct (New_requires_url_aux h config nm Hurl) as (g & Hnew & Hg).
  exists g. destruct Hg as (Hm & Hi & Hig).
  rewrite Hm, Hi, Hig, Hmax, Hint, Hign. repeat split; try done.
  intros s. unfold completion, ServeHTTP, defer_recover.
  destruct (pipeline g s) as [[[]|v] s1]; [done|].
  rewrite handleError_interrupt; [done|done|]. by rewrite Hi, Hint.
Qed.

End Frames.

(** ** The scenarios of the specification, and the theorems at work *)

Section Scenarios.

Import Scenario.

(** Scenario B: a 403 verdict with body "blocked" is what the client
    gets, and the upstream is never called. *)
Example scenario_B :
  rwStatus (rw (final (run gateA (post "/403" hello)))) = Some 403 ∧
  rwBody (rw (final (run gateA (post "/403" hello)))) = bytes "blocked" ∧
  rwHeader (rw (final (run gateA (post "/403" hello)))) !! "X-Waf" = Some ["deny"] ∧
  upstreamInvoked (final (run gateA (post "/403" hello))) = false.
Proof. by vm_compute. Qed.

(** Scenario C: a 500 verdict is relayed when 5xx are not ignored. *)
Example scenario_C :
  rwStatus (rw (final (run gateA (post "/500" hello)))) = Some 500 ∧
  upstreamInvoked (final (run gateA (post "/500" hello))) = false ∧
  length (logs (final (run gateA (post "/500" hello)))) = 2%nat.
Proof. by vm_compute. Qed.

(** Scenario D: a 503 verdict is passed over when 5xx are ignored. *)
Example scenario_D :
  upstreamInvoked (final (run gateIgnore (post "/503" hello))) = true ∧
  rwBody (rw (final (run gateIgnore (post "/503" hello)))) = bytes "ok".
Proof. by vm_compute. Qed.

(** Scenario E: an unreachable decision service in continue mode. *)
Example scenario_E :
  upstreamInvoked (final (run gateDownOpen (post "/" hello))) = true ∧
  rwStatus (rw (final (run gateDownOpen (post "/" hello)))) = Some 200.
Proof. by vm_compute. Qed.

(** The arbiter on the 403 verdict of scenario B. *)
Lemma verdict_branches_witness :
  relayed gateA (post "/403" hello) hello blocked (run gateA (post "/403" hello)).
Proof.
  refine (proj1 (proj2 (verdict_branches (H := env) gateA (post "/403" hello) hello
                          {| pending := []; ending := EOF |} tt blocked _ _ _ _)) _).
  - reflexivity.
  - reflexivity.
  - reflexivity.
  - reflexivity.
  - cbn. lia.
Defined.

(** An allowed request of five bytes. *)
Lemma allowed_body_identical_witness :
  ∃ r more,
    calls (final (run gateA (post "/" hello))) =
      CallDo (outbound gateA (req (post "/" hello)) hello)
      :: CallNext emptyWriter r :: more ∧
    pending (Body r) = hello ∧
    ending (Body r) = EOF ∧
    Method r = "POST" ∧
    RequestURI r = "/" ∧
    ReqHeader r = ∅.
Proof.
  refine (allowed_body_identical (H := env) gateA (post "/" hello) tt (verdict 200)
            _ _ _ _ _ _).
  - reflexivity.
  - reflexivity.
  - cbn. lia.
  - reflexivity.
  - reflexivity.
  - cbn. lia.
Defined.

(** The relay on the 403 verdict of scenario B. *)
Lemma block_relays_verdict_witness :
  rwStatus (rw (final (run gateA (post "/403" hello)))) = Some 403 ∧
  rwBody (rw (final (run gateA (post "/403" hello)))) = bytes "blocked".
Proof.
  pose proof (block_relays_verdict (H := env) gateA (post "/403" hello) hello
                {| pending := []; ending := EOF |} tt blocked
                eq_refl eq_refl eq_refl eq_refl) as Hrelay.
  refine (conj (proj1 (proj2 (Hrelay _ _ _))) (proj1 (proj2 (proj2 (Hrelay _ _ _))))).
  all: try (cbn; lia); try (left; cbn; lia); try (by split).
Defined.

(** C1 fails as stated on a verdict whose status has four digits: it is
    500 or more and [ignore500Error] is false, yet the verdict response is
    not relayed.  [WriteHeader] panics on the code, the deferred function
    recovers, and the error policy answers: 502 in interrupt mode, the
    upstream handler in continue mode. *)
Lemma verdict_branches_counterexample :
  httpClient_Do tt (outbound gateA (req (post "/1000" hello)) hello) =
    (tt, DoResponse (verdict 1000)) ∧
  500 ≤ StatusCode (verdict 1000) ∧
  (ignore500Error gateA = false ∧
   rwStatus (rw (final (run gateA (post "/1000" hello)))) = Some 502 ∧
   ¬ relayed gateA (post "/1000" hello) hello (verdict 1000)
       (run gateA (post "/1000" hello))) ∧
  (ignore500Error gateOpen = false ∧
   upstreamInvoked (final (run gateOpen (post "/1000" hello))) = true ∧
   ¬ relayed gateOpen (post "/1000" hello) hello (verdict 1000)
       (run gateOpen (post "/1000" hello))).
Proof.
  repeat apply conj; try by vm_compute.
  - intros (_ & _ & Hrw). apply (f_equal rwStatus) in Hrw. by vm_compute in Hrw.
  - intros (_ & Hcalls & _). apply (f_equal length) in Hcalls. by vm_compute in Hcalls.
Qed.

(** C3 fails as stated on the same verdict: the outcome is Block (status
    1000, [ignore500Error] false, nothing sent on the writer), yet the
    client gets status 502 and the end of line of [http.Error] in interrupt
    mode, and the upstream handler is invoked in continue mode. *)
Lemma block_relays_verdict_counterexample :
  httpClient_Do tt (outbound gateA (req (post "/1000" hello)) hello) =
    (tt, DoResponse (verdict 1000)) ∧
  400 ≤ StatusCode (verdict 1000) ∧
  RW.fresh (rw (post "/1000" hello)) ∧
  (ignore500Error gateA = false ∧
   rwStatus (rw (final (run gateA (post "/1000" hello)))) = Some 502 ∧
   rwStatus (rw (final (run gateA (post "/1000" hello)))) ≠
     Some (StatusCode (verdict 1000)) ∧
   rwBody (rw (final (run gateA (post "/1000" hello)))) = [Byte.x0a] ∧
   rwBody (rw (final (run gateA (post "/1000" hello)))) ≠
     pending (RespBody (verdict 1000))) ∧
  (ignore500Error gateOpen = false ∧
   upstreamInvoked (final (run gateOpen (post "/1000" hello))) = true ∧
   rwStatus (rw (final (run gateOpen (post "/1000" hello)))) = Some 200 ∧
   rwBody (rw (final (run gateOpen (post "/1000" hello)))) = bytes "ok").
Proof. by vm_compute. Qed.

(** Scenario A: 2000 bytes against a maximum of 1024. *)
Lemma oversized_body_policy_witness :
  completion (run gateA (post "/" big)) = Ret tt ∧
  contacted (final (run gateA (post "/" big))) = false ∧
  rwStatus (rw (final (run gateA (post "/" big)))) = Some 413 ∧
  rwBody (rw (final (run gateA (post "/" big)))) = newline.
Proof.
  pose proof (oversized_body_policy (H := env) gateA (post "/" big) eq_refl eq_refl)
    as (Hcontact & Hinterrupt & _).
  destruct (Hinterrupt eq_refl) as (Hret & _ & _ & Hfresh).
  destruct (Hfresh (conj eq_refl eq_refl)) as [Hst Hbody].
  exact (conj Hret (conj Hcontact (conj Hst Hbody))).
Defined.

(** C4 fails as stated.  (1) In scenario A the client gets 413, but the
    body is not empty: it is the end of line [http.Error] writes after
    the empty message.  (2) An upgrade request with the same oversized
    body goes to the upstream handler, interrupt mode or not.  (3) With a
    negative maximum an empty body exceeds it, and is inspected and
    allowed all the same. *)
Lemma oversized_body_counterexample :
  (maxBodySize gateA < Z.of_nat (length big) ∧
   interruptOnError gateA = true ∧
   rwStatus (rw (final (run gateA (post "/" big)))) = Some 413 ∧
   rwBody (rw (final (run gateA (post "/" big)))) = [Byte.x0a] ∧
   rwBody (rw (final (run gateA (post "/" big)))) ≠ []) ∧
  (interruptOnError gateA = true ∧
   rwStatus (rw (final (run gateA (upgrade big)))) = Some 200 ∧
   upstreamInvoked (final (run gateA (upgrade big))) = true) ∧
  (maxBodySize gateNegative < Z.of_nat (length (pending (Body (req (post "/" []))))) ∧
   interruptOnError gateNegative = true ∧
   contacted (final (run gateNegative (post "/" []))) = true ∧
   rwStatus (rw (final (run gateNegative (post "/" [])))) = Some 200).
Proof. by vm_compute. Qed.

(** The decision service is unreachable, interrupt mode. *)
Lemma transport_failure_policy_witness :
  completion (run gateDown (post "/" hello)) = Ret tt ∧
  upstreamInvoked (final (run gateDown (post "/" hello))) = false ∧
  rwStatus (rw (final (run gateDown (post "/" hello)))) = Some 502 ∧
  rwBody (rw (final (run gateDown (post "/" hello)))) = newline.
Proof.
  pose proof (transport_failure_policy (H := env) gateDown (post "/" hello) hello
                {| pending := []; ending := EOF |} "dial tcp: connection refused"
                eq_refl eq_refl
                (or_intror (conj eq_refl (ex_intro _ tt eq_refl))))
    as [Hinterrupt _].
  destruct (Hinterrupt eq_refl) as (Hret & Hup & _ & Hfresh).
  destruct (Hfresh (conj eq_refl eq_refl)) as [Hst Hbody].
  exact (conj Hret (conj Hup (conj Hst Hbody))).
Defined.

(** C6 fails as stated: with the decision service unreachable and
    [interruptOnError] set, the client gets 502 with a body of one byte,
    the end of line [http.Error] writes after the empty message. *)
Lemma transport_failure_counterexample :
  httpClient_Do tt (outbound gateDown (req (post "/" hello)) hello) =
    (tt, DoError "dial tcp: connection refused") ∧
  interruptOnError gateDown = true ∧
  rwStatus (rw (final (run gateDown (post "/" hello)))) = Some 502 ∧
  rwBody (rw (final (run gateDown (post "/" hello)))) = [Byte.x0a] ∧
  rwBody (rw (final (run gateDown (post "/" hello)))) ≠ [].
Proof. by vm_compute. Qed.

(** The upstream handler panics on an allowed request, interrupt mode. *)
Lemma panic_policy_witness :
  completion (run gatePanic (post "/" hello)) = Ret tt ∧
  rwStatus (rw (final (run gatePanic (post "/" hello)))) = Some 502.
Proof.
  pose proof (panic_policy (H := env) gatePanic (post "/" hello)
                "net/http: abort Handler"
                (snd (pipeline gatePanic (post "/" hello))) eq_refl)
    as (_ & Hinterrupt & _).
  destruct (Hinterrupt eq_refl) as (Hret & _ & _ & Hst & _).
  exact (conj Hret (Hst eq_refl)).
Defined.

(** C7 fails as stated.  (1) In continue mode the deferred function
    invokes the upstream handler; when that invocation panics as the
    first did, the panic leaves [ServeHTTP].  (2) In interrupt mode the
    502 response has a body of one byte. *)
Lemma panic_counterexample :
  (interruptOnError gatePanicOpen = false ∧
   completion (pipeline gatePanicOpen (post "/" hello)) = Panic "net/http: abort Handler" ∧
   completion (run gatePanicOpen (post "/" hello)) = Panic "net/http: abort Handler" ∧
   completion (run gatePanicOpen (post "/" hello)) ≠ Ret tt) ∧
  (interruptOnError gatePanic = true ∧
   completion (pipeline gatePanic (post "/" hello)) = Panic "net/http: abort Handler" ∧
   rwStatus (rw (final (run gatePanic (post "/" hello)))) = Some 502 ∧
   rwBody (rw (final (run gatePanic (post "/" hello)))) = [Byte.x0a] ∧
   rwBody (rw (final (run gatePanic (post "/" hello)))) ≠ []).
Proof. by vm_compute. Qed.

(** A stream that breaks within the limit is answered with 502. *)
Lemma read_error_routing_witness :
  rwStatus (rw (final (run gateA broken))) = Some 502 ∧
  ending (Body (req broken)) = ReadError "unexpected EOF".
Proof.
  pose proof (read_error_routing (H := env) gateA broken (bytes "abc") "unexpected EOF"
                {| pending := []; ending := ReadError "unexpected EOF" |} emptyWriter
                eq_refl eq_refl)
    as (_ & Hother & Hwithin & _).
  refine (conj (proj2 (Hother _) eq_refl (conj eq_refl eq_refl)) (Hwithin _)).
  - discriminate.
  - cbn. lia.
Defined.

(** The size error itself is answered with 413, also when it comes from
    the stream and not from the limit of this gate. *)
Example read_error_by_message :
  rwStatus (rw (final (run gateA
    (start (request "/" ∅
       {| pending := hello; ending := ReadError "http: request body too large" |})))))
  = Some 413.
Proof. by vm_compute. Qed.

(** Scenario A in continue mode: the upstream handler gets what is left
    of the stream, 975 bytes of the 2000. *)
Lemma failed_capture_body_consumed_witness :
  (∃ more,
     calls (final (run gateOpen (post "/" big))) =
     CallNext (limitHit emptyWriter)
       (request "/" ∅ {| pending := repeat Byte.x41 975; ending := EOF |}) :: more) ∧
  (length (repeat Byte.x41 975) < length big)%nat.
Proof.
  pose proof (failed_capture_body_consumed (H := env) gateOpen (post "/" big)
                (repeat Byte.x41 1024) errBodyTooLarge
                {| pending := repeat Byte.x41 975; ending := EOF |}
                (limitHit emptyWriter) eq_refl eq_refl eq_refl)
    as (Hcalls & _ & _ & Hless).
  refine (conj Hcalls (Hless _)). discriminate.
Defined.

(** An upgrade request goes straight to the upstream handler. *)
Lemma websocket_bypass_witness :
  (∃ more,
     calls (final (run gateA (upgrade hello))) =
     CallNext emptyWriter (req (upgrade hello)) :: more ∧
     forallb isCallNext more = true) ∧
  contacted (final (run gateA (upgrade hello))) = false.
Proof.
  refine (proj1 (websocket_bypass (H := env) gateA (upgrade hello)) _).
  exists ["websocket"]. split; [reflexivity|]. apply list_elem_of_here.
Defined.

(** The constructor on the default configuration and on a configured
    one. *)
Lemma New_requires_url_witness :
  New (H := env) upstream CreateConfig "waf" =
    (None, Some "modSecurityUrl cannot be empty") ∧
  ∃ g, New (H := env) upstream
         {| ModSecurityUrl := "http://waf:8080"; MaxBodySize := 1024;
            InterruptOnError := true; Ignore500Error := false |} "waf" = (Some g, None) ∧
       modSecurityUrl g = "http://waf:8080" ∧
       maxBodySize g = 1024 ∧
       interruptOnError g = true ∧
       ignore500Error g = false ∧
       next g = upstream ∧
       name g = "waf".
Proof.
  split.
  - exact (proj1 (New_requires_url (H := env) upstream CreateConfig "waf") eq_refl).
  - refine (proj2 (New_requires_url (H := env) upstream _ "waf") _). discriminate.
Defined.

End Scenarios.

(** ** The further theorems at work *)

Section MoreScenarios.

Import Scenario.

(** The calls of an allowed request of five bytes. *)
Lemma decision_request_mirrors_witness :
  ("POST" ≠ "" → pMethod (outbound gateA (req (post "/" hello)) hello) = "POST") ∧
  pURL (outbound gateA (req (post "/" hello)) hello) = "http://waf:8080/" ∧
  pHeader (outbound gateA (req (post "/" hello)) hello) = ∅ ∧
  pBody (outbound gateA (req (post "/" hello)) hello) = hello ∧
  ending (Body (req (post "/" hello))) = EOF ∧
  Z.of_nat (length (pBody (outbound gateA (req (post "/" hello)) hello))) ≤ 1024 ∧
  isWebsocket (req (post "/" hello)) = false.
Proof.
  refine (decision_request_mirrors (H := env) gateA (post "/" hello)
            (calls (final (run gateA (post "/" hello))))
            (outbound gateA (req (post "/" hello)) hello) eq_refl _).
  vm_compute. apply list_elem_of_here.
Defined.

(** The calls of a panicking upstream in continue mode: one call of the
    decision service, two of the upstream handler. *)
Lemma call_bounds_witness :
  (length (List.filter isCallDo (calls (final (run gatePanicOpen (post "/" hello))))) ≤ 1)%nat ∧
  (length (List.filter isCallNext (calls (final (run gatePanicOpen (post "/" hello))))) ≤ 2)%nat ∧
  (∀ p, CallDo p ∈ calls (final (run gatePanicOpen (post "/" hello))) →
        head (calls (final (run gatePanicOpen (post "/" hello)))) = Some (CallDo p)).
Proof.
  exact (call_bounds (H := env) gatePanicOpen (post "/" hello)
           (calls (final (run gatePanicOpen (post "/" hello)))) eq_refl).
Defined.

Example call_bounds_reached :
  length (List.filter isCallNext (calls (final (run gatePanicOpen (post "/" hello))))) = 2%nat.
Proof. by vm_compute. Qed.

(** The panicking upstream in interrupt mode. *)
Lemma interrupt_never_panics_witness :
  completion (run gatePanic (post "/" hello)) = Ret tt.
Proof. exact (interrupt_never_panics (H := env) gatePanic (post "/" hello) eq_refl). Defined.

(** The panicking upstream in continue mode. *)
Lemma escaping_panic_origin_witness :
  interruptOnError gatePanicOpen = false ∧
  ∃ v0 s1,
    pipeline gatePanicOpen (post "/" hello) = (Panic v0, s1) ∧
    snd (next gatePanicOpen (world s1) (rw s1) (req s1)) = Panic "net/http: abort Handler" ∧
    calls (final (run gatePanicOpen (post "/" hello))) =
      calls s1 ++ [CallNext (rw s1) (req s1)].
Proof.
  exact (escaping_panic_origin (H := env) gatePanicOpen (post "/" hello)
           "net/http: abort Handler" eq_refl).
Defined.

(** Scenario C: the 500 verdict is logged and relayed. *)
Lemma server_error_logged_witness :
  ∃ more,
    logs (final (run gateA (post "/500" hello))) =
    LogRequest "OWASP 500 error. Request " (replayable (req (post "/500" hello)) hello)
    :: LogResponse "OWASP 500 error. Response " (verdict 500) :: more.
Proof.
  refine (proj1 (server_error_logged (H := env) gateA (post "/500" hello) hello
                   {| pending := []; ending := EOF |} tt (verdict 500)
                   eq_refl eq_refl eq_refl eq_refl) _).
  cbn. lia.
Defined.

(** An allowed request: the client gets the upstream's answer. *)
Lemma allow_transparent_witness :
  completion (run gateA (post "/" hello)) = Ret tt ∧
  rw (final (run gateA (post "/" hello))) = RW.Write (bytes "ok") emptyWriter.
Proof.
  pose proof (allow_transparent (H := env) gateA (post "/" hello) hello
                {| pending := []; ending := EOF |} tt (verdict 200)
                tt (RW.Write (bytes "ok") emptyWriter)
                (setBody (replayable (req (post "/" hello)) hello)
                         {| pending := []; ending := EOF |})
                eq_refl eq_refl eq_refl eq_refl) as Hallow.
  refine (conj (proj1 (Hallow _ eq_refl)) (proj1 (proj2 (Hallow _ eq_refl)))).
  all: left; cbn; lia.
Defined.

(** An upgrade request. *)
Lemma websocket_transparent_witness :
  run gateA (upgrade hello) =
  (Ret tt,
   {| rw := RW.Write (bytes "ok") emptyWriter;
      req := setBody (req (upgrade hello)) {| pending := []; ending := EOF |};
      logs := [];
      calls := [CallNext emptyWriter (req (upgrade hello))];
      world := tt |}).
Proof.
  exact (websocket_transparent (H := env) gateA (upgrade hello) tt
           (RW.Write (bytes "ok") emptyWriter)
           (setBody (req (upgrade hello)) {| pending := []; ending := EOF |})
           eq_refl eq_refl).
Defined.

(** Scenario E: the decision service is unreachable, continue mode. *)
Lemma fail_open_transparent_witness :
  completion (run gateDownOpen (post "/" hello)) = Ret tt ∧
  rw (final (run gateDownOpen (post "/" hello))) = RW.Write (bytes "ok") emptyWriter.
Proof.
  pose proof (fail_open_transparent (H := env) gateDownOpen (post "/" hello) hello
                {| pending := []; ending := EOF |} tt "dial tcp: connection refused"
                tt (RW.Write (bytes "ok") emptyWriter)
                (setBody (replayable (req (post "/" hello)) hello)
                         {| pending := []; ending := EOF |})
                eq_refl eq_refl eq_refl eq_refl eq_refl eq_refl) as Hopen.
  exact (conj (proj1 Hopen) (proj1 (proj2 Hopen))).
Defined.

(** The panicking upstream is called twice in continue mode. *)
Lemma double_invocation_witness :
  calls (final (run gatePanicOpen (post "/" hello))) =
    [CallDo (outbound gatePanicOpen (req (post "/" hello)) hello);
     CallNext emptyWriter (replayable (req (post "/" hello)) hello);
     CallNext emptyWriter (replayable (req (post "/" hello)) hello)] ∧
  completion (run gatePanicOpen (post "/" hello)) = Panic "net/http: abort Handler".
Proof.
  refine (double_invocation (H := env) gatePanicOpen (post "/" hello) hello
            {| pending := []; ending := EOF |} tt (verdict 200)
            tt emptyWriter (replayable (req (post "/" hello)) hello)
            "net/http: abort Handler" eq_refl eq_refl eq_refl eq_refl _ eq_refl eq_refl).
  cbn. lia.
Defined.

(** An upstream that panics after it started its answer with 200. *)
Lemma late_panic_keeps_status_witness :
  completion (run gateLate (post "/" hello)) = Ret tt ∧
  rwStatus (rw (final (run gateLate (post "/" hello)))) = Some 200 ∧
  rwBody (rw (final (run gateLate (post "/" hello)))) = bytes "par" ++ newline.
Proof.
  refine (late_panic_keeps_status (H := env) gateLate (post "/" hello) hello
            {| pending := []; ending := EOF |} tt (verdict 200)
            tt (RW.Write (bytes "par") emptyWriter)
            (replayable (req (post "/" hello)) hello)
            "net/http: abort Handler" 200
            eq_refl eq_refl eq_refl eq_refl _ eq_refl eq_refl eq_refl).
  cbn. lia.
Defined.

(** The first upstream call when the decision service cannot be reached. *)
Lemma first_upstream_call_witness :
  Method (replayable (req (post "/" hello)) hello) = "POST" ∧
  RequestURI (replayable (req (post "/" hello)) hello) = "/" ∧
  ReqHeader (replayable (req (post "/" hello)) hello) = ∅ ∧
  rwStatus emptyWriter = None ∧
  rwBody emptyWriter = [].
Proof.
  exact (first_upstream_call (H := env) gateDownOpen (post "/" hello)
           (calls (final (run gateDownOpen (post "/" hello))))
           emptyWriter (replayable (req (post "/" hello)) hello) eq_refl eq_refl).
Defined.

(** The broken stream is not inspected, the sound one is. *)
Lemma inspected_iff_witness :
  (∃ p, CallDo p ∈ calls (final (run gateA (post "/" hello)))) ∧
  ¬ (∃ p, CallDo p ∈ calls (final (run gateA broken))).
Proof.
  split.
  - apply (inspected_iff (H := env) gateA (post "/" hello)
             (calls (final (run gateA (post "/" hello)))) eq_refl).
    repeat split. cbn. lia.
  - intros Hin.
    apply (inspected_iff (H := env) gateA broken
             (calls (final (run gateA broken))) eq_refl) in Hin.
    destruct Hin as (_ & Heof & _). discriminate.
Defined.

(** A gate made by [New] from a configuration. *)
Lemma New_gate_uses_config_witness :
  "http://waf:8080" ≠ "" ∧
  pURL (outbound gateA (req (post "/" hello)) hello) = "http://waf:8080/" ∧
  Z.of_nat (length (pBody (outbound gateA (req (post "/" hello)) hello))) ≤ 1024.
Proof.
  refine (New_gate_uses_config (H := env) upstream
            {| ModSecurityUrl := "http://waf:8080"; MaxBodySize := 1024;
               InterruptOnError := true; Ignore500Error := false |} "waf"
            gateA (post "/" hello)
            (calls (final (run gateA (post "/" hello))))
            (outbound gateA (req (post "/" hello)) hello) eq_refl eq_refl _).
  vm_compute. apply list_elem_of_here.
Defined.

(** The defaults with a URL. *)
Lemma default_configuration_witness :
  ∃ g, New (H := env) panicky
         {| ModSecurityUrl := "http://waf:8080"; MaxBodySize := 10 * 1024 * 1024;
            InterruptOnError := true; Ignore500Error := false |} "waf" = (Some g, None) ∧
       maxBodySize g = 10485760 ∧
       interruptOnError g = true ∧
       ignore500Error g = false ∧
       ∀ s, completion (ServeHTTP g s) = Ret tt.
Proof.
  refine (proj2 (default_configuration (H := env) panicky
                   {| ModSecurityUrl := "http://waf:8080"; MaxBodySize := 10 * 1024 * 1024;
                      InterruptOnError := true; Ignore500Error := false |} "waf")
                _ eq_refl eq_refl eq_refl).
  discriminate.
Defined.

End MoreScenarios.
